(** * View-change block processing of a shard node

    A shallow embedding of [src/libNode/ViewChangeBlockProcessing.cpp]:
    [Node::VerifyVCBlockCoSignature], [Node::ProcessVCBlock],
    [Node::ProcessVCBlockCore], the two DS-committee updates and
    [Node::SendVCBlockToOtherShardNodes].

    The node's mutable state (mediator fields, block storage, the messages
    handed to the broadcast layer) is threaded explicitly.  The classes the
    file only calls (Messenger, MultiSig, BlockStorage, BlockLinkChain,
    the header's hashing and serialisation, the clock) are gathered in the
    record [Env]; every function below takes it as its first argument. *)

From Stdlib Require Import NArith ZArith List Lia Bool Ascii String.
From stdpp Require Import base decidable option list gmap.

Local Open Scope N_scope.

(** ** Data model *)

Module Wire.
Definition bytes := list Byte.byte.
Definition uint32_max : N := 2 ^ 32.
Definition uint64_max : N := 2 ^ 64.
(** [unsigned int] and [uint64_t] arithmetic wraps. *)
Definition wrap32 (n : N) : N := n mod uint32_max.
Definition wrap64 (n : N) : N := n mod uint64_max.
End Wire.
Export Wire.

(** Keys, signatures and hashes are opaque to this file: they are compared
    with [==] and handed to the crypto layer.  They are identified by
    numbers. *)
Definition PubKey := N.
Definition Signature := N.
Definition BlockHash := N.
Definition CommitteeHash := N.

(** [Peer]: an IP address (128 bit) and a listening port; [Peer()] is
    0.0.0.0:0. *)
Record Peer := mkPeer { m_ipAddress : N; m_listenPortHost : N }.

Definition Peer0 : Peer := mkPeer 0 0.

#[global] Instance Peer_eq_dec : EqDecision Peer.
Proof. solve_decision. Defined.

Definition PairOfNode : Type := PubKey * Peer.
Definition DequeOfNode := list PairOfNode.

Record VCBlockHeader := mkVCBlockHeader {
  GetVersion : N;
  GetViewChangeDSEpochNo : N;
  GetViewChangeEpochNo : N;
  GetViewChangeState : N;
  GetCandidateLeaderNetworkInfo : Peer;
  GetCandidateLeaderPubKey : PubKey;
  GetFaultyLeaders : list PairOfNode;
  GetCommitteeHash : CommitteeHash;
  GetPrevHash : BlockHash
}.

Record VCBlock := mkVCBlock {
  GetHeader : VCBlockHeader;
  GetCS1 : Signature;
  GetB1 : list bool;
  GetCS2 : Signature;
  GetB2 : list bool;
  GetTimestamp : N;
  GetBlockHash : BlockHash
}.

Inductive BlockType := BT_DS | BT_VC | BT_FB.

Record BlockLink := mkBlockLink {
  bl_index : N;
  bl_dsindex : N;
  bl_type : BlockType;
  bl_hash : BlockHash
}.

(** What the node owns and this file reads or writes. [outbox] records the
    calls of [SendBlockToOtherShardNodes]: frame, cluster size, number of
    child clusters. *)
Record NodeState := mkNodeState {
  m_currentEpochNum : N;
  m_DSCommittee : DequeOfNode;
  m_blocklinkchain : list BlockLink;
  m_selfKey : PubKey;
  vcBlockDB : gmap N bytes;
  outbox : list (bytes * N * N)
}.

(** The collaborators and constants declared outside this file. *)
Record Env := mkEnv {
  (* common/Constants.h *)
  VCBLOCK_VERSION : N;
  CONSENSUS_OBJECT_TIMEOUT : N;
  VIEWCHANGE_TIME : N;
  VIEWCHANGE_PRECHECK_TIME : N;
  VIEWCHANGE_EXTRA_TIME : N;
  GUARD_MODE : bool;
  LOOKUP_NODE_MODE : bool;
  BROADCAST_TREEBASED_CLUSTER_MODE : bool;
  NUM_FORWARDED_BLOCK_RECEIVERS_PER_SHARD : N;
  NUM_DS_ELECTION : N;
  NUM_OF_TREEBASED_CHILD_CLUSTERS : N;
  (* common/Messages.h *)
  MessageType_NODE : Byte.byte;
  NodeInstructionType_VCBLOCK : Byte.byte;
  MessageOffset_BODY : N;
  (* libMessage/Messenger.h *)
  GetNodeVCBlock : bytes -> N -> option VCBlock;
  SetNodeVCBlock : bytes -> N -> VCBlock -> option bytes;
  GetDSCommitteeHash : DequeOfNode -> option CommitteeHash;
  (* libDirectoryService, libMediator, libUtils *)
  IsDSBlockVCState : N -> bool;
  CheckWhetherBlockIsLatest : N -> N -> bool;
  VerifyTimestamp : N -> N -> bool;
  (* block classes *)
  GetMyHash : VCBlockHeader -> BlockHash;
  HeaderSerialize : VCBlockHeader -> option bytes;
  SignatureSerialize : Signature -> bytes;
  VCBlockSerialize : VCBlock -> bytes;
  SetBitVector : list bool -> bytes;
  (* libCrypto/MultiSig.h *)
  AggregatePubKeys : list PubKey -> option PubKey;
  MultiSigVerify : bytes -> Signature -> PubKey -> bool;
  (* libData/BlockChainData/BlockLinkChain.h, libPersistence *)
  GetLatestIndex : list BlockLink -> N;
  PutVCBlockSucceeds : BlockHash -> bytes -> bool
}.

(** Modelled from the spec: [ConsensusCommon::NumForConsensus] is declared
    in libConsensus, outside this file; the spec gives
    num_for_consensus(n) = ceil(2n/3) + 1. *)
Definition NumForConsensus (n : N) : N := (2 * n + 2) / 3 + 1.

(** ** Node::VerifyVCBlockCoSignature *)
Section CoSignature.
Variable E : Env.

(** The loop over the committee: [B2.at(index)] throws [out_of_range]
    past the end of the bitmap, which is [None] here.  [index] and [count]
    are [unsigned int]; a bitmap has at most 65535 bits on the wire (its
    length prefix is two bytes), so neither wraps. *)
Fixpoint collect_keys (comm : DequeOfNode) (B2 : list bool)
    (index : nat) (keys : list PubKey) (count : N)
    : option (list PubKey * N) :=
  match comm with
  | [] => Some (keys, count)
  | kv :: rest =>
      match B2 !! index with
      | None => None
      | Some true => collect_keys rest B2 (S index) (keys ++ [kv.1]) (count + 1)
      | Some false => collect_keys rest B2 (S index) keys count
      end
  end.

(** The message that is verified: the header serialised at offset 0, CS1
    serialised at [message.size()], B1 encoded at [message.size()]. *)
Definition signed_message (vcblock : VCBlock) : option bytes :=
  match HeaderSerialize E (GetHeader vcblock) with
  | None => None
  | Some message =>
      let message := message ++ SignatureSerialize E (GetCS1 vcblock) in
      Some (message ++ SetBitVector E (GetB1 vcblock))
  end.

(** [None] is an escaping exception, [Some b] the returned flag. *)
Definition VerifyVCBlockCoSignature (vcblock : VCBlock) (dsComm : DequeOfNode)
    : option bool :=
  let B2 := GetB2 vcblock in
  if negb (bool_decide (length dsComm = length B2)) then Some false
  else
    match collect_keys dsComm B2 0 [] 0 with
    | None => None
    | Some (keys, count) =>
        if negb (bool_decide (count = NumForConsensus (N.of_nat (length B2))))
        then Some false
        else
          match AggregatePubKeys E keys with
          | None => Some false
          | Some aggregatedKey =>
              match signed_message vcblock with
              | None => Some false
              | Some message =>
                  if negb (MultiSigVerify E message (GetCS2 vcblock) aggregatedKey)
                  then Some false
                  else Some true
              end
          end
    end.
End CoSignature.

(** ** The DS-committee updates *)

(** [std::find_if]: the position of the first element satisfying [p], the
    length of the deque ([end()]) when there is none. *)
Fixpoint find_if {A} (p : A -> bool) (l : list A) : nat :=
  match l with
  | [] => 0%nat
  | y :: l' => if p y then 0%nat else S (find_if p l')
  end.

(** [std::find] compares with [operator==]. *)
Definition find (x : PairOfNode) (l : DequeOfNode) : nat :=
  find_if (fun y => bool_decide (y = x)) l.

(** [dsComm.erase(it)]. *)
Definition erase (it : nat) (dsComm : DequeOfNode) : DequeOfNode :=
  delete it dsComm.

(** One turn of the loop of [UpdateDSCommiteeCompositionAfterVC]. *)
Definition eject_leader (selfKey : PubKey) (dsComm : DequeOfNode)
    (faultyLeader : PairOfNode) : DequeOfNode :=
  let it :=
    if bool_decide (faultyLeader.1 = selfKey) && bool_decide (faultyLeader.2 = Peer0)
    then let selfNode := (faultyLeader.1, Peer0) in find selfNode dsComm
    else find faultyLeader dsComm in
  let dsComm :=
    if negb (bool_decide (it = length dsComm)) then erase it dsComm
    else dsComm in
  dsComm ++ [faultyLeader].

Definition UpdateDSCommiteeCompositionAfterVC (E : Env) (selfKey : PubKey)
    (vcblock : VCBlock) (dsComm : DequeOfNode) : DequeOfNode :=
  if GUARD_MODE E then dsComm
  else foldl (eject_leader selfKey) dsComm (GetFaultyLeaders (GetHeader vcblock)).

(** One turn of the loop of [UpdateRetrieveDSCommiteeCompositionAfterVC]:
    only the public keys are compared. *)
Definition eject_leader_by_key (dsComm : DequeOfNode)
    (faultyLeader : PairOfNode) : DequeOfNode :=
  let it := find_if (fun p => bool_decide (p.1 = faultyLeader.1)) dsComm in
  let dsComm :=
    if negb (bool_decide (it = length dsComm)) then erase it dsComm
    else dsComm in
  dsComm ++ [faultyLeader].

Definition UpdateRetrieveDSCommiteeCompositionAfterVC (E : Env)
    (vcblock : VCBlock) (dsComm : DequeOfNode) : DequeOfNode :=
  if GUARD_MODE E then dsComm
  else foldl eject_leader_by_key dsComm (GetFaultyLeaders (GetHeader vcblock)).

(** ** Node::SendVCBlockToOtherShardNodes *)

(** The cluster size handed to [SendBlockToOtherShardNodes]. *)
Definition vc_cluster_size (E : Env) : N :=
  let cluster_size := NUM_FORWARDED_BLOCK_RECEIVERS_PER_SHARD E in
  if cluster_size <=? NUM_DS_ELECTION E
  then wrap32 (NUM_DS_ELECTION E + 1)
  else cluster_size.

Definition SendBlockToOtherShardNodes (message : bytes) (cluster_size : N)
    (num_of_child_clusters : N) (s : NodeState) : NodeState :=
  mkNodeState (m_currentEpochNum s) (m_DSCommittee s) (m_blocklinkchain s)
    (m_selfKey s) (vcBlockDB s)
    (outbox s ++ [(message, cluster_size, num_of_child_clusters)]).

Definition SendVCBlockToOtherShardNodes (E : Env) (vcblock_message : bytes)
    (s : NodeState) : NodeState :=
  SendBlockToOtherShardNodes vcblock_message (vc_cluster_size E)
    (NUM_OF_TREEBASED_CHILD_CLUSTERS E) s.

(** ** Node::ProcessVCBlockCore *)

(** Modelled from the spec: [BlockLinkChain::AddBlockLink] is declared in
    libData; the chain is an append-only log and the caller passes the
    index after the latest one. *)
Definition AddBlockLink (index dsindex : N) (blocktype : BlockType)
    (blockhash : BlockHash) (s : NodeState) : NodeState :=
  mkNodeState (m_currentEpochNum s) (m_DSCommittee s)
    (m_blocklinkchain s ++ [mkBlockLink index dsindex blocktype blockhash])
    (m_selfKey s) (vcBlockDB s) (outbox s).

(** Modelled from the spec: [BlockStorage::GetVCBlock] and
    [BlockStorage::PutVCBlock] are declared in libPersistence; the store is
    a key-value map, a write that fails leaves it as it was. *)
Definition GetVCBlock (blockhash : BlockHash) (s : NodeState) : bool :=
  bool_decide (is_Some (vcBlockDB s !! blockhash)).

Definition PutVCBlock (E : Env) (blockhash : BlockHash) (body : bytes)
    (s : NodeState) : bool * NodeState :=
  if PutVCBlockSucceeds E blockhash body
  then (true,
        mkNodeState (m_currentEpochNum s) (m_DSCommittee s) (m_blocklinkchain s)
          (m_selfKey s) (<[blockhash := body]> (vcBlockDB s)) (outbox s))
  else (false, s).

Definition set_DSCommittee (dsComm : DequeOfNode) (s : NodeState) : NodeState :=
  mkNodeState (m_currentEpochNum s) dsComm (m_blocklinkchain s)
    (m_selfKey s) (vcBlockDB s) (outbox s).

(** The tolerance of the timestamp check, a sum of [unsigned int]. *)
Definition vc_timestamp_tolerance (E : Env) : N :=
  wrap32 (CONSENSUS_OBJECT_TIMEOUT E + VIEWCHANGE_TIME E +
          VIEWCHANGE_PRECHECK_TIME E + VIEWCHANGE_EXTRA_TIME E).

(** The part of [ProcessVCBlockCore] after the co-signature check: link,
    persist, update the committee. *)
Definition commit_vc_block (E : Env) (vcblock : VCBlock) (s : NodeState)
    : bool * NodeState :=
  let latestInd := wrap64 (GetLatestIndex E (m_blocklinkchain s) + 1) in
  let s := AddBlockLink latestInd (GetViewChangeDSEpochNo (GetHeader vcblock))
             BT_VC (GetBlockHash vcblock) s in
  let dst := VCBlockSerialize E vcblock in
  match PutVCBlock E (GetBlockHash vcblock) dst s with
  | (false, s) => (false, s)
  | (true, s) =>
      (true,
       set_DSCommittee
         (UpdateDSCommiteeCompositionAfterVC E (m_selfKey s) vcblock (m_DSCommittee s))
         s)
  end.

(** [None] is an escaping exception; otherwise the returned flag.  The
    logging under [LOOKUP_NODE_MODE] changes no state and is left out. *)
Definition ProcessVCBlockCore (E : Env) (vcblock : VCBlock) (s : NodeState)
    : option bool * NodeState :=
  let hdr := GetHeader vcblock in
  if negb (bool_decide (GetViewChangeEpochNo hdr = m_currentEpochNum s))
  then (Some false, s)
  else if negb (CheckWhetherBlockIsLatest E (GetViewChangeDSEpochNo hdr)
                  (GetViewChangeEpochNo hdr))
  then (Some false, s)
  else
    let temp_blockHash := GetMyHash E hdr in
    if negb (bool_decide (temp_blockHash = GetBlockHash vcblock))
    then (Some false, s)
    else if GetVCBlock temp_blockHash s
    then (Some false, s)
    else if negb (VerifyTimestamp E (GetTimestamp vcblock) (vc_timestamp_tolerance E))
    then (Some false, s)
    else
      match GetDSCommitteeHash E (m_DSCommittee s) with
      | None => (Some false, s)
      | Some committeeHash =>
          if negb (bool_decide (committeeHash = GetCommitteeHash hdr))
          then (Some false, s)
          else
            match VerifyVCBlockCoSignature E vcblock (m_DSCommittee s) with
            | None => (None, s)
            | Some false => (Some false, s)
            | Some true =>
                let (ok, s) := commit_vc_block E vcblock s in (Some ok, s)
            end
      end.

(** ** Node::ProcessVCBlock *)
Definition ProcessVCBlock (E : Env) (message : bytes) (cur_offset : N)
    (from : Peer) (s : NodeState) : option bool * NodeState :=
  match GetNodeVCBlock E message cur_offset with
  | None => (Some false, s)
  | Some vcblock =>
      if negb (bool_decide (GetVersion (GetHeader vcblock) = VCBLOCK_VERSION E))
      then (Some false, s)
      else if IsDSBlockVCState E (GetViewChangeState (GetHeader vcblock))
      then (Some false, s)
      else
        match ProcessVCBlockCore E vcblock s with
        | (None, s) => (None, s)
        | (Some false, s) => (Some false, s)
        | (Some true, s) =>
            let s :=
              if negb (LOOKUP_NODE_MODE E) && BROADCAST_TREEBASED_CLUSTER_MODE E
              then
                let message2 := [MessageType_NODE E; NodeInstructionType_VCBLOCK E] in
                match SetNodeVCBlock E message2 (MessageOffset_BODY E) vcblock with
                | None => s
                | Some message2 => SendVCBlockToOtherShardNodes E message2 s
                end
              else s in
            (Some true, s)
        end
  end.

(** ** Notions the properties are stated with *)

(** The number of set bits of a bitmap. *)
Fixpoint popcount (b : list bool) : N :=
  match b with
  | [] => 0
  | true :: b' => popcount b' + 1
  | false :: b' => popcount b'
  end.

(** The public keys a bitmap selects, walking the committee in order. *)
Fixpoint selected_keys (committee : DequeOfNode) (b2 : list bool) : list PubKey :=
  match committee, b2 with
  | kv :: committee', true :: b2' => kv.1 :: selected_keys committee' b2'
  | _ :: committee', false :: b2' => selected_keys committee' b2'
  | _, _ => []
  end.

(** The check of the spec: [cs2] verifies under the aggregate of the selected
    keys over serialize(header) || serialize(cs1) || encode_bitvector(b1). *)
Definition multisig_check (E : Env) (vcblock : VCBlock) (committee : DequeOfNode)
    : bool :=
  match AggregatePubKeys E (selected_keys committee (GetB2 vcblock)),
        HeaderSerialize E (GetHeader vcblock) with
  | Some agg_pk, Some header_bytes =>
      MultiSigVerify E
        (header_bytes ++ SignatureSerialize E (GetCS1 vcblock)
                      ++ SetBitVector E (GetB1 vcblock))
        (GetCS2 vcblock) agg_pk
  | _, _ => false
  end.

(** The deque without the first occurrence of [x]. *)
Fixpoint remove_first (x : PairOfNode) (l : DequeOfNode) : DequeOfNode :=
  match l with
  | [] => []
  | y :: l' => if bool_decide (y = x) then l' else y :: remove_first x l'
  end.

Definition remove_firsts (xs : list PairOfNode) (l : DequeOfNode) : DequeOfNode :=
  foldl (fun l x => remove_first x l) l xs.

Fixpoint occurrences (x : PairOfNode) (l : DequeOfNode) : nat :=
  match l with
  | [] => 0%nat
  | y :: l' => ((if bool_decide (y = x) then 1 else 0) + occurrences x l')%nat
  end.

(** Every faulty leader is in the committee exactly once, and the faulty
    leaders are its tail, in the order of the header.  A leader the header
    lists again is moved again, so it stands where its last listing puts
    it: the tail is the list without the earlier repetitions, which is the
    list itself when no leader is listed twice. *)
Definition faulty_moved_to_tail (faulty : list PairOfNode) (after : DequeOfNode)
    : Prop :=
  (forall f, f ∈ faulty -> occurrences f after = 1%nat) /\
  exists front, after = front ++ remove_dups faulty.

(** The ten gates of the pipeline, in the order they are taken. *)
Inductive Gate :=
| GDecode | GVersion | GStateTag | GEpoch | GFreshness | GSelfHash
| GDuplicate | GTimestamp | GCommitteeHash | GCoSignature.

(** [gate_fails E g vcblock s]: the check of gate [g] does not pass for the
    decoded block [vcblock] (the outcome of decoding) in state [s]. *)
Definition gate_fails (E : Env) (g : Gate) (decoded : option VCBlock)
    (s : NodeState) : Prop :=
  match g, decoded with
  | GDecode, d => d = None
  | _, None => False
  | GVersion, Some b => GetVersion (GetHeader b) <> VCBLOCK_VERSION E
  | GStateTag, Some b => IsDSBlockVCState E (GetViewChangeState (GetHeader b)) = true
  | GEpoch, Some b => GetViewChangeEpochNo (GetHeader b) <> m_currentEpochNum s
  | GFreshness, Some b =>
      CheckWhetherBlockIsLatest E (GetViewChangeDSEpochNo (GetHeader b))
        (GetViewChangeEpochNo (GetHeader b)) = false
  | GSelfHash, Some b => GetMyHash E (GetHeader b) <> GetBlockHash b
  | GDuplicate, Some b => is_Some (vcBlockDB s !! GetMyHash E (GetHeader b))
  | GTimestamp, Some b =>
      VerifyTimestamp E (GetTimestamp b) (vc_timestamp_tolerance E) = false
  | GCommitteeHash, Some b =>
      GetDSCommitteeHash E (m_DSCommittee s) <> Some (GetCommitteeHash (GetHeader b))
  | GCoSignature, Some b =>
      VerifyVCBlockCoSignature E b (m_DSCommittee s) <> Some true
  end.

(** All the gates after decoding pass. *)
Definition gates_pass (E : Env) (vcblock : VCBlock) (s : NodeState) : Prop :=
  forall g, g <> GDecode -> ~ gate_fails E g (Some vcblock) s.

(** ** A test bench

    A committee of five, and an environment whose checks accept: the
    decoder returns [decoded], the flags are the arguments. *)
Module Bench.
Definition A : PairOfNode := (1, mkPeer 167772161 33133).
Definition B : PairOfNode := (2, mkPeer 167772162 33133).
Definition C : PairOfNode := (3, mkPeer 167772163 33133).
Definition D : PairOfNode := (4, mkPeer 167772164 33133).
Definition E : PairOfNode := (5, mkPeer 167772165 33133).

Definition env (decoded : option VCBlock) (guard put_ok encode_ok : bool)
    (num_fwd num_ds_election : N) : Env :=
  {| VCBLOCK_VERSION := 1;
     CONSENSUS_OBJECT_TIMEOUT := 10;
     VIEWCHANGE_TIME := 60;
     VIEWCHANGE_PRECHECK_TIME := 15;
     VIEWCHANGE_EXTRA_TIME := 30;
     GUARD_MODE := guard;
     LOOKUP_NODE_MODE := false;
     BROADCAST_TREEBASED_CLUSTER_MODE := true;
     NUM_FORWARDED_BLOCK_RECEIVERS_PER_SHARD := num_fwd;
     NUM_DS_ELECTION := num_ds_election;
     NUM_OF_TREEBASED_CHILD_CLUSTERS := 3;
     MessageType_NODE := Byte.x04;
     NodeInstructionType_VCBLOCK := Byte.x06;
     MessageOffset_BODY := 2;
     GetNodeVCBlock := fun _ _ => decoded;
     SetNodeVCBlock := fun m _ _ => if encode_ok then Some (m ++ [Byte.xff]) else None;
     GetDSCommitteeHash := fun c => Some (N.of_nat (length c));
     IsDSBlockVCState := fun t => t <? 2;
     CheckWhetherBlockIsLatest := fun _ _ => true;
     VerifyTimestamp := fun _ _ => true;
     GetMyHash := fun h => GetPrevHash h + 1;
     HeaderSerialize := fun _ => Some [Byte.x01];
     SignatureSerialize := fun _ => [Byte.x02];
     VCBlockSerialize := fun _ => [Byte.x03];
     SetBitVector := fun b => map (fun x : bool => if x then Byte.x01 else Byte.x00) b;
     AggregatePubKeys := fun ks => Some (foldr N.add 0 ks);
     MultiSigVerify := fun _ _ _ => true;
     GetLatestIndex := fun c => N.of_nat (length c);
     PutVCBlockSucceeds := fun _ _ => put_ok |}.

Definition header (faulty : list PairOfNode) (committee_hash : N) : VCBlockHeader :=
  {| GetVersion := 1;
     GetViewChangeDSEpochNo := 7;
     GetViewChangeEpochNo := 700;
     GetViewChangeState := 5;
     GetCandidateLeaderNetworkInfo := A.2;
     GetCandidateLeaderPubKey := A.1;
     GetFaultyLeaders := faulty;
     GetCommitteeHash := committee_hash;
     GetPrevHash := 41 |}.

Definition block (faulty : list PairOfNode) (b1 b2 : list bool)
    (committee_hash : N) : VCBlock :=
  {| GetHeader := header faulty committee_hash;
     GetCS1 := 11; GetB1 := b1; GetCS2 := 12; GetB2 := b2;
     GetTimestamp := 1000; GetBlockHash := 42 |}.

Definition committee : DequeOfNode := [A; B; C; D; E].

(** A block all five members signed, for the committee above. *)
Definition signed_block (faulty : list PairOfNode) (b1 : list bool) : VCBlock :=
  block faulty b1 [true; true; true; true; true] 5.

Definition node (committee : DequeOfNode) : NodeState :=
  {| m_currentEpochNum := 700;
     m_DSCommittee := committee;
     m_blocklinkchain := [];
     m_selfKey := 9;
     vcBlockDB := ∅;
     outbox := [] |}.
End Bench.

(** The link [ProcessVCBlockCore] appends, the frame [ProcessVCBlock]
    builds for the fan-out, and what is handed to the broadcast layer with
    it. *)
Definition vc_link (E : Env) (vcblock : VCBlock) (s : NodeState) : BlockLink :=
  mkBlockLink (wrap64 (GetLatestIndex E (m_blocklinkchain s) + 1))
    (GetViewChangeDSEpochNo (GetHeader vcblock)) BT_VC (GetBlockHash vcblock).

Definition vc_frame (E : Env) (vcblock : VCBlock) : option bytes :=
  SetNodeVCBlock E [MessageType_NODE E; NodeInstructionType_VCBLOCK E]
    (MessageOffset_BODY E) vcblock.

Definition vc_forwarded (E : Env) (vcblock : VCBlock) : list (bytes * N * N) :=
  if negb (LOOKUP_NODE_MODE E) && BROADCAST_TREEBASED_CLUSTER_MODE E
  then match vc_frame E vcblock with
       | Some message2 =>
           [(message2, vc_cluster_size E, NUM_OF_TREEBASED_CHILD_CLUSTERS E)]
       | None => []
       end
  else [].

(** The deque without its first element satisfying [p]. *)
Fixpoint remove_first_if (p : PairOfNode -> bool) (l : DequeOfNode) : DequeOfNode :=
  match l with
  | [] => []
  | y :: l' => if p y then l' else y :: remove_first_if p l'
  end.

(** ** Hex helpers of the PoW test suite

    [bytesToHexString], [fromHex] and [hexStringToBytes] of the second part
    of the file.  A [std::string] is a [string], [uint8_t] a [Byte.byte]. *)

(** [_s[i]]: the character at [i]; [_s[_s.size()]] is the terminating NUL,
    and so is, here, any index past it. *)
Definition char_at (_s : string) (i : nat) : ascii :=
  match String.get i _s with
  | Some c => c
  | None => Ascii.zero
  end.

(** [None] is the exception [BOOST_REQUIRE_MESSAGE(false, ...)] throws. *)
Definition fromHex (_i : ascii) : option N :=
  let c := N_of_ascii _i in
  if (48 <=? c) && (c <=? 57) then Some (c - 48)
  else if (97 <=? c) && (c <=? 102) then Some (c - 97 + 10)
  else if (65 <=? c) && (c <=? 70) then Some (c - 65 + 10)
  else None.

(** The conversion to [uint8_t]. *)
Definition to_uint8 (n : N) : Byte.byte :=
  match Byte.of_N (n mod 256) with
  | Some b => b
  | None => Byte.x00
  end.

(** One turn of the second loop: [catch (...)] stores 0 when a digit is
    refused. *)
Definition hex_pair (c1 c2 : ascii) : Byte.byte :=
  match fromHex c1, fromHex c2 with
  | Some hi, Some lo => to_uint8 (hi * 16 + lo)
  | _, _ => Byte.x00
  end.

(** The second loop, [for (unsigned i = s; i < _s.size(); i += 2)]: the
    counter is an [unsigned], so [i += 2] and [i + 1] wrap at 2^32, while
    the size it is compared with does not.  [fuel] bounds the number of
    turns; [None] is a loop that has not ended within it. *)
Fixpoint hex_loop (fuel : nat) (_s : string) (i : N) (ret : bytes) : option bytes :=
  match fuel with
  | O => None
  | S fuel' =>
      if i <? N.of_nat (String.length _s)
      then hex_loop fuel' _s (wrap32 (i + 2))
             (ret ++ [hex_pair (char_at _s (N.to_nat i))
                               (char_at _s (N.to_nat (wrap32 (i + 1))))])
      else Some ret
  end.

Definition hexStringToBytes (fuel : nat) (_s : string) : option bytes :=
  let s : N :=
    if Ascii.eqb (char_at _s 0) "0" && Ascii.eqb (char_at _s 1) "x" then 2 else 0 in
  if Nat.odd (String.length _s)
  then
    let first :=
      match fromHex (char_at _s (N.to_nat s)) with
      | Some d => to_uint8 d
      | None => Byte.x00
      end in
    hex_loop fuel _s (wrap32 (s + 1)) [first]
  else hex_loop fuel _s s [].

(** [std::hex], [std::nouppercase]: one digit. *)
Definition hex_digit (d : N) : ascii :=
  if d <? 10 then ascii_of_N (48 + d) else ascii_of_N (87 + d).

(** [setfill('0')], [setw(2)]: two digits for every byte. *)
Fixpoint bytesToHexString (str : bytes) : string :=
  match str with
  | [] => EmptyString
  | b :: str' =>
      String (hex_digit (Byte.to_N b / 16))
        (String (hex_digit (Byte.to_N b mod 16)) (bytesToHexString str'))
  end.

(** The bytes of the digit pairs of a string, two characters at a time (a
    last single character is paired with NUL): what the loop of
    [hexStringToBytes] appends when its counter does not wrap. *)
Fixpoint hex_pairs (rest : string) : bytes :=
  match rest with
  | EmptyString => []
  | String c1 EmptyString => [hex_pair c1 Ascii.zero]
  | String c1 (String c2 rest') => hex_pair c1 c2 :: hex_pairs rest'
  end.

Fixpoint string_drop (n : nat) (_s : string) : string :=
  match n, _s with
  | O, _ => _s
  | S n', EmptyString => EmptyString
  | S n', String _ rest => string_drop n' rest
  end.

(** The bytes [hexStringToBytes] returns on a string of fewer than 2^32
    characters (lemma [hexStringToBytes_decode]). *)
Definition hex_decode (_s : string) : bytes :=
  let s :=
    if Ascii.eqb (char_at _s 0) "0" && Ascii.eqb (char_at _s 1) "x"
    then 2%nat else 0%nat in
  if Nat.odd (String.length _s)
  then
    let first :=
      match fromHex (char_at _s s) with
      | Some d => to_uint8 d
      | None => Byte.x00
      end in
    first :: hex_pairs (string_drop (S s) _s)
  else hex_pairs (string_drop s _s).

(** Strings made of hex digits only, and the same string in lower case. *)
Fixpoint all_hex (_s : string) : bool :=
  match _s with
  | EmptyString => true
  | String c rest => match fromHex c with Some _ => all_hex rest | None => false end
  end.

Definition to_lower (c : ascii) : ascii :=
  let n := N_of_ascii c in
  if (65 <=? n) && (n <=? 90) then ascii_of_N (n + 32) else c.

Fixpoint lower_case (_s : string) : string :=
  match _s with
  | EmptyString => EmptyString
  | String c rest => String (to_lower c) (lower_case rest)
  end.

(** ** The difficulty retarget

    Modelled from the spec: [DirectoryService::CalculateNewDifficultyCore]
    is defined in libDirectoryService; this repository slice has only its
    tests.  The definition is section 4.6 of the spec, read literally:
    +1 when the submissions exceed the expected nodes by the threshold
    percentage and the network is at least as large as expected, -1 (not
    below the minimum) when they fall short by it and the network is
    smaller, +1 at a multiple of the blocks per year, clamped to
    [min, 255]. *)
Module Difficulty.
Definition clamp (lo hi x : Z) : Z := Z.max lo (Z.min hi x).

Definition CalculateNewDifficultyCore
    (currentDifficulty minDifficulty currentNodes powSubmissions expectedNodes
     adjustThreshold currentEpochNum numBlocksPerYear : Z) : Z :=
  let delta := (powSubmissions - expectedNodes)%Z in
  let d :=
    if (adjustThreshold <=? Z.quot (delta * 100) expectedNodes)%Z
       && (expectedNodes <=? currentNodes)%Z
    then (currentDifficulty + 1)%Z
    else if (adjustThreshold <=? Z.quot (- delta * 100) expectedNodes)%Z
            && (currentNodes <? expectedNodes)%Z
    then Z.max minDifficulty (currentDifficulty - 1)
    else currentDifficulty in
  let d := if (Z.rem currentEpochNum numBlocksPerYear =? 0)%Z then (d + 1)%Z else d in
  clamp minDifficulty 255 d.
End Difficulty.

(** * Properties *)

(** ** The co-signature check *)

Lemma collect_keys_split (comm : DequeOfNode) :
  forall (pre post : list bool) (keys : list PubKey) (count : N),
    length comm = length post ->
    collect_keys comm (pre ++ post) (length pre) keys count
    = Some (keys ++ selected_keys comm post, count + popcount post).
Proof.
  induction comm as [|kv rest IH]; intros pre post keys count Hlen.
  - destruct post; [|discriminate]. cbn.
    by rewrite app_nil_r, N.add_0_r.
  - destruct post as [|b post]; [discriminate|].
    injection Hlen as Hlen. cbn [collect_keys].
    rewrite list_lookup_middle by reflexivity.
    specialize (IH (pre ++ [b]) post).
    rewrite length_app in IH. cbn [length] in IH.
    replace (length pre + 1)%nat with (S (length pre)) in IH by lia.
    rewrite <- app_assoc in IH. cbn [app] in IH.
    destruct b; rewrite IH by assumption; cbn [selected_keys popcount].
    + rewrite <- app_assoc. cbn [app]. do 2 f_equal. lia.
    + reflexivity.
Qed.

(** With bitmap and committee of one size the loop never reads past the
    bitmap: it returns the selected keys and the number of set bits. *)
Lemma collect_keys_total (comm : DequeOfNode) (B2 : list bool) :
  length comm = length B2 ->
  collect_keys comm B2 0 [] 0 = Some (selected_keys comm B2, popcount B2).
Proof.
  intros Hlen. apply (collect_keys_split comm [] B2 [] 0 Hlen).
Qed.

(** The verifier as one expression: the size test, the signer count, and
    the multi-signature check of the spec. *)
Lemma VerifyVCBlockCoSignature_eq (E : Env) (vcblock : VCBlock) (dsComm : DequeOfNode) :
  VerifyVCBlockCoSignature E vcblock dsComm
  = Some (bool_decide (length dsComm = length (GetB2 vcblock))
          && bool_decide (popcount (GetB2 vcblock)
                          = NumForConsensus (N.of_nat (length (GetB2 vcblock))))
          && multisig_check E vcblock dsComm).
Proof.
  unfold VerifyVCBlockCoSignature, multisig_check, signed_message.
  case_bool_decide as Hlen; cbn [negb andb]; [|reflexivity].
  rewrite (collect_keys_total _ _ Hlen).
  case_bool_decide; cbn [negb andb]; [|reflexivity].
  destruct (AggregatePubKeys E _); [|reflexivity].
  destruct (HeaderSerialize E _); [|reflexivity].
  rewrite <- app_assoc.
  by destruct (MultiSigVerify E _ _ _).
Qed.

(** No exception escapes the verifier. *)
Lemma VerifyVCBlockCoSignature_returns (E : Env) (vcblock : VCBlock) (dsComm : DequeOfNode) :
  VerifyVCBlockCoSignature E vcblock dsComm <> None.
Proof. by rewrite VerifyVCBlockCoSignature_eq. Qed.

Lemma NumForConsensus_ceil (n : N) :
  2 * n <= 3 * (NumForConsensus n - 1) < 2 * n + 3.
Proof.
  unfold NumForConsensus.
  rewrite N.add_sub.
  pose proof (N.div_mod (2 * n + 2) 3 ltac:(lia)) as Hd.
  pose proof (N.mod_upper_bound (2 * n + 2) 3 ltac:(lia)) as Hm.
  remember ((2 * n + 2) / 3) as q. remember ((2 * n + 2) mod 3) as r.
  lia.
Qed.

(** C2: with a bitmap as long as the committee, the co-signature check
    succeeds only if the bitmap has exactly NumForConsensus(|b2|) set bits,
    which is ceil(2|b2|/3) + 1; a bitmap with ceil(2|b2|/3) set bits, one
    fewer, is rejected, and so is one with more set bits than the
    threshold. *)
Theorem cosig_needs_exact_signer_count (E : Env) (vcblock : VCBlock)
    (dsComm : DequeOfNode) :
  length (GetB2 vcblock) = length dsComm ->
  let n := N.of_nat (length (GetB2 vcblock)) in
  (VerifyVCBlockCoSignature E vcblock dsComm = Some true ->
   popcount (GetB2 vcblock) = NumForConsensus n) /\
  (2 * n <= 3 * (NumForConsensus n - 1) < 2 * n + 3) /\
  (popcount (GetB2 vcblock) = NumForConsensus n - 1 ->
   VerifyVCBlockCoSignature E vcblock dsComm = Some false) /\
  (NumForConsensus n < popcount (GetB2 vcblock) ->
   VerifyVCBlockCoSignature E vcblock dsComm = Some false).
Proof.
  intros Hlen n. rewrite VerifyVCBlockCoSignature_eq.
  rewrite bool_decide_true by done. cbn [andb].
  assert (Hpos : 0 < NumForConsensus n).
  { unfold NumForConsensus. rewrite N.add_1_r. apply N.lt_0_succ. }
  repeat split; try apply NumForConsensus_ceil.
  - intros Hok. injection Hok as Hok.
    apply andb_true_iff in Hok as [Hcnt _].
    by apply bool_decide_eq_true in Hcnt.
  - intros Hcnt. rewrite bool_decide_false; [reflexivity|]. fold n. lia.
  - intros Hcnt. rewrite bool_decide_false; [reflexivity|]. fold n. lia.
Qed.

Lemma cosig_needs_exact_signer_count_witness :
  length (GetB2 (Bench.signed_block [] [])) = length Bench.committee /\
  popcount (GetB2 (Bench.signed_block [] [])) = NumForConsensus 5.
Proof.
  split; [reflexivity|].
  apply (cosig_needs_exact_signer_count (Bench.env None false true true 10 5)
           (Bench.signed_block [] []) Bench.committee eq_refl).
  reflexivity.
Defined.

(** C3: when the bitmap has the size of the committee and the number of
    signers the threshold asks for, the co-signature check succeeds exactly
    when cs2 verifies, under the aggregate of the committee keys selected by
    b2 in committee order, over
    serialize(header) || serialize(cs1) || encode_bitvector(b1). *)
Theorem cosig_iff_multisig_check (E : Env) (vcblock : VCBlock)
    (dsComm : DequeOfNode) :
  length dsComm = length (GetB2 vcblock) ->
  popcount (GetB2 vcblock) = NumForConsensus (N.of_nat (length (GetB2 vcblock))) ->
  VerifyVCBlockCoSignature E vcblock dsComm = Some true <->
  multisig_check E vcblock dsComm = true.
Proof.
  intros Hlen Hcnt. rewrite VerifyVCBlockCoSignature_eq.
  rewrite !bool_decide_true by done. cbn [andb].
  split; [by intros [= ->] | by intros ->].
Qed.

Lemma cosig_iff_multisig_check_witness :
  selected_keys (Bench.committee ++ [(6, Peer0)])
    [true; true; true; true; true; false] = [1; 2; 3; 4; 5] /\
  (VerifyVCBlockCoSignature (Bench.env None false true true 10 5)
     (Bench.block [] [true] [true; true; true; true; true; false] 6)
     (Bench.committee ++ [(6, Peer0)]) = Some true <->
   multisig_check (Bench.env None false true true 10 5)
     (Bench.block [] [true] [true; true; true; true; true; false] 6)
     (Bench.committee ++ [(6, Peer0)]) = true).
Proof.
  split; [reflexivity|].
  apply (cosig_iff_multisig_check (Bench.env None false true true 10 5)
           (Bench.block [] [true] [true; true; true; true; true; false] 6)
           (Bench.committee ++ [(6, Peer0)])); reflexivity.
Defined.

(** ** The pipeline *)

Lemma commit_vc_block_put_fails (E : Env) (vcblock : VCBlock) (s : NodeState) :
  PutVCBlockSucceeds E (GetBlockHash vcblock) (VCBlockSerialize E vcblock) = false ->
  commit_vc_block E vcblock s
  = (false,
     AddBlockLink (wrap64 (GetLatestIndex E (m_blocklinkchain s) + 1))
       (GetViewChangeDSEpochNo (GetHeader vcblock)) BT_VC (GetBlockHash vcblock) s).
Proof.
  intros Hput. unfold commit_vc_block, PutVCBlock. by rewrite Hput.
Qed.

(** A failing gate of the core makes it return [false] in the state it was
    called in. *)
Lemma ProcessVCBlockCore_gate_fails (E : Env) (g : Gate) (vcblock : VCBlock)
    (s : NodeState) :
  g <> GDecode -> g <> GVersion -> g <> GStateTag ->
  gate_fails E g (Some vcblock) s ->
  ProcessVCBlockCore E vcblock s = (Some false, s).
Proof.
  intros Hd Hv Ht Hfail.
  pose proof (VerifyVCBlockCoSignature_returns E vcblock (m_DSCommittee s)) as Hret.
  unfold ProcessVCBlockCore, GetVCBlock.
  case_bool_decide as Hepoch; cbn [negb]; [|reflexivity].
  destruct (CheckWhetherBlockIsLatest E _ _) eqn:Hlatest; cbn [negb]; [|reflexivity].
  case_bool_decide as Hself; cbn [negb]; [|reflexivity].
  case_bool_decide as Hdup; [reflexivity|].
  destruct (VerifyTimestamp E _ _) eqn:Htime; cbn [negb]; [|reflexivity].
  destruct (GetDSCommitteeHash E _) as [committeeHash|] eqn:Hhash; [|reflexivity].
  case_bool_decide as Hcomm; cbn [negb]; [|reflexivity].
  destruct (VerifyVCBlockCoSignature E _ _) as [[|]|] eqn:Hsig;
    [|reflexivity|done].
  exfalso. destruct g; cbn in Hfail; try done; try congruence.
Qed.

(** When every gate passes the core is the commit: link, persist, update. *)
Lemma ProcessVCBlockCore_gates_pass (E : Env) (vcblock : VCBlock) (s : NodeState) :
  gates_pass E vcblock s ->
  ProcessVCBlockCore E vcblock s
  = (Some (commit_vc_block E vcblock s).1, (commit_vc_block E vcblock s).2).
Proof.
  intros Hpass.
  assert (Hepoch := Hpass GEpoch ltac:(done)).
  assert (Hfresh := Hpass GFreshness ltac:(done)).
  assert (Hself := Hpass GSelfHash ltac:(done)).
  assert (Hdup := Hpass GDuplicate ltac:(done)).
  assert (Htime := Hpass GTimestamp ltac:(done)).
  assert (Hhash := Hpass GCommitteeHash ltac:(done)).
  assert (Hsig := Hpass GCoSignature ltac:(done)).
  cbn in Hepoch, Hfresh, Hself, Hdup, Htime, Hhash, Hsig.
  unfold ProcessVCBlockCore, GetVCBlock.
  case_bool_decide; [cbn [negb]|done].
  apply not_false_is_true in Hfresh, Htime. rewrite Hfresh, Htime. cbn [negb].
  case_bool_decide; [cbn [negb]|done].
  case_bool_decide; [done|].
  destruct (GetDSCommitteeHash E _) as [committeeHash|];
    [|exfalso; apply Hhash; congruence].
  case_bool_decide; [cbn [negb]|exfalso; apply Hhash; congruence].
  destruct (VerifyVCBlockCoSignature E _ _) as [[|]|];
    [|exfalso; apply Hsig; congruence..].
  by destruct (commit_vc_block E vcblock s).
Qed.

(** A failing gate makes [ProcessVCBlock] return [false] in the state it was
    called in. *)
Lemma ProcessVCBlock_gate_fails (E : Env) (g : Gate) (message : bytes)
    (cur_offset : N) (from : Peer) (s : NodeState) :
  gate_fails E g (GetNodeVCBlock E message cur_offset) s ->
  ProcessVCBlock E message cur_offset from s = (Some false, s).
Proof.
  intros Hfail. unfold ProcessVCBlock.
  destruct (GetNodeVCBlock E message cur_offset) as [vcblock|]; [|reflexivity].
  case_bool_decide as Hversion; cbn [negb]; [|reflexivity].
  destruct (IsDSBlockVCState E _) eqn:Htag; [reflexivity|].
  rewrite (ProcessVCBlockCore_gate_fails E g vcblock s); try done.
  - intros ->. discriminate Hfail.
  - intros ->. by cbn in Hfail.
  - intros ->. cbn in Hfail. congruence.
Qed.

(** C1: whichever gate fails (decode, version, state tag, epoch equality,
    freshness, self-hash, duplicate, timestamp, committee hash or
    co-signature), [ProcessVCBlock] returns [false] and leaves the node as
    it was: no block link is appended, no block is stored, the DS committee
    is unchanged. *)
Theorem failed_gate_aborts_without_effect (E : Env) (g : Gate) (message : bytes)
    (cur_offset : N) (from : Peer) (s : NodeState) :
  gate_fails E g (GetNodeVCBlock E message cur_offset) s ->
  ProcessVCBlock E message cur_offset from s = (Some false, s) /\
  m_blocklinkchain (ProcessVCBlock E message cur_offset from s).2 = m_blocklinkchain s /\
  vcBlockDB (ProcessVCBlock E message cur_offset from s).2 = vcBlockDB s /\
  m_DSCommittee (ProcessVCBlock E message cur_offset from s).2 = m_DSCommittee s.
Proof.
  intros Hfail.
  by rewrite (ProcessVCBlock_gate_fails E g message cur_offset from s Hfail).
Qed.

Lemma failed_gate_aborts_without_effect_witness :
  gate_fails
    (Bench.env (Some (Bench.block [Bench.B] [] [true; true; true; true; false] 5))
       false true true 10 5)
    GCoSignature
    (Some (Bench.block [Bench.B] [] [true; true; true; true; false] 5))
    (Bench.node Bench.committee) /\
  ProcessVCBlock
    (Bench.env (Some (Bench.block [Bench.B] [] [true; true; true; true; false] 5))
       false true true 10 5)
    [] 2 Peer0 (Bench.node Bench.committee)
  = (Some false, Bench.node Bench.committee).
Proof.
  assert (Hfail :
    gate_fails
      (Bench.env (Some (Bench.block [Bench.B] [] [true; true; true; true; false] 5))
         false true true 10 5)
      GCoSignature
      (Some (Bench.block [Bench.B] [] [true; true; true; true; false] 5))
      (Bench.node Bench.committee)).
  { vm_compute. discriminate. }
  split; [exact Hfail|].
  exact (proj1 (failed_gate_aborts_without_effect
                  (Bench.env (Some (Bench.block [Bench.B] [] [true; true; true; true; false] 5))
                     false true true 10 5)
                  GCoSignature [] 2 Peer0 (Bench.node Bench.committee) Hfail)).
Defined.

(** C5, as stated, fails: the pipeline accepts a block whose bitmap b1 is
    empty while the committee has five members. *)
Lemma accepted_block_b1_unchecked :
  (ProcessVCBlock (Bench.env (Some (Bench.signed_block [] [])) false true true 10 5)
     [] 2 Peer0 (Bench.node Bench.committee)).1 = Some true /\
  length (GetB1 (Bench.signed_block [] [])) <> length Bench.committee.
Proof. split; [by vm_compute | discriminate]. Qed.

(** C5, amended: for every block the pipeline accepts, the bitmap b2 has the
    size of the DS committee at admission (no check reads the size of b1). *)
Theorem accepted_block_b2_matches_committee (E : Env) (message : bytes)
    (cur_offset : N) (from : Peer) (s s' : NodeState) (vcblock : VCBlock) :
  GetNodeVCBlock E message cur_offset = Some vcblock ->
  ProcessVCBlock E message cur_offset from s = (Some true, s') ->
  length (GetB2 vcblock) = length (m_DSCommittee s).
Proof.
  intros Hdec Hacc.
  destruct (decide (VerifyVCBlockCoSignature E vcblock (m_DSCommittee s) = Some true))
    as [Hsig|Hsig].
  - rewrite VerifyVCBlockCoSignature_eq in Hsig. injection Hsig as Hsig.
    apply andb_true_iff in Hsig as [Hsig _].
    apply andb_true_iff in Hsig as [Hlen _].
    by apply bool_decide_eq_true in Hlen.
  - assert (Hfail : gate_fails E GCoSignature (GetNodeVCBlock E message cur_offset) s)
      by (by rewrite Hdec).
    apply (ProcessVCBlock_gate_fails E _ message cur_offset from) in Hfail.
    congruence.
Qed.

Lemma accepted_block_b2_matches_committee_witness :
  length (GetB2 (Bench.signed_block [Bench.B] [])) = length Bench.committee.
Proof.
  apply (accepted_block_b2_matches_committee
           (Bench.env (Some (Bench.signed_block [Bench.B] [])) false true true 10 5)
           [] 2 Peer0 (Bench.node Bench.committee)
           (ProcessVCBlock
              (Bench.env (Some (Bench.signed_block [Bench.B] [])) false true true 10 5)
              [] 2 Peer0 (Bench.node Bench.committee)).2
           (Bench.signed_block [Bench.B] [])).
  - reflexivity.
  - by vm_compute.
Defined.

(** C6: when every gate passes and the block store refuses the write,
    [ProcessVCBlock] returns [false]; the block link appended just before
    stays in the chain, and the DS committee (and the store) are as they
    were. *)
Theorem persist_failure_keeps_link (E : Env) (message : bytes) (cur_offset : N)
    (from : Peer) (s : NodeState) (vcblock : VCBlock) :
  GetNodeVCBlock E message cur_offset = Some vcblock ->
  gates_pass E vcblock s ->
  PutVCBlockSucceeds E (GetBlockHash vcblock) (VCBlockSerialize E vcblock) = false ->
  (ProcessVCBlock E message cur_offset from s).1 = Some false /\
  m_blocklinkchain (ProcessVCBlock E message cur_offset from s).2
  = m_blocklinkchain s
    ++ [mkBlockLink (wrap64 (GetLatestIndex E (m_blocklinkchain s) + 1))
          (GetViewChangeDSEpochNo (GetHeader vcblock)) BT_VC (GetBlockHash vcblock)] /\
  m_DSCommittee (ProcessVCBlock E message cur_offset from s).2 = m_DSCommittee s /\
  vcBlockDB (ProcessVCBlock E message cur_offset from s).2 = vcBlockDB s.
Proof.
  intros Hdec Hpass Hput.
  assert (Hversion := Hpass GVersion ltac:(done)).
  assert (Htag := Hpass GStateTag ltac:(done)).
  cbn in Hversion, Htag.
  unfold ProcessVCBlock. rewrite Hdec.
  case_bool_decide; [cbn [negb]|done].
  apply not_true_is_false in Htag. rewrite Htag.
  rewrite (ProcessVCBlockCore_gates_pass E vcblock s Hpass).
  by rewrite (commit_vc_block_put_fails E vcblock s Hput).
Qed.

Lemma persist_failure_keeps_link_witness :
  m_blocklinkchain
    (ProcessVCBlock
       (Bench.env (Some (Bench.signed_block [Bench.B] [])) false false true 10 5)
       [] 2 Peer0 (Bench.node Bench.committee)).2
  = [mkBlockLink 1 7 BT_VC 42].
Proof.
  apply (persist_failure_keeps_link
           (Bench.env (Some (Bench.signed_block [Bench.B] [])) false false true 10 5)
           [] 2 Peer0 (Bench.node Bench.committee) (Bench.signed_block [Bench.B] [])).
  - reflexivity.
  - intros g Hg. destruct g; vm_compute; try congruence.
    intros [x Hx]. discriminate Hx.
  - reflexivity.
Defined.

(** C10: once the core has succeeded, [ProcessVCBlock] returns [true]
    whatever the re-encoding for the fan-out does, and the link chain, the
    block store and the committee are those the core left; when the
    re-encoding fails nothing is forwarded and the state is exactly the
    core's. *)
Theorem encode_failure_keeps_success (E : Env) (message : bytes) (cur_offset : N)
    (from : Peer) (s s' : NodeState) (vcblock : VCBlock) :
  GetNodeVCBlock E message cur_offset = Some vcblock ->
  GetVersion (GetHeader vcblock) = VCBLOCK_VERSION E ->
  IsDSBlockVCState E (GetViewChangeState (GetHeader vcblock)) = false ->
  ProcessVCBlockCore E vcblock s = (Some true, s') ->
  ((ProcessVCBlock E message cur_offset from s).1 = Some true /\
   m_blocklinkchain (ProcessVCBlock E message cur_offset from s).2 = m_blocklinkchain s' /\
   vcBlockDB (ProcessVCBlock E message cur_offset from s).2 = vcBlockDB s' /\
   m_DSCommittee (ProcessVCBlock E message cur_offset from s).2 = m_DSCommittee s') /\
  (SetNodeVCBlock E [MessageType_NODE E; NodeInstructionType_VCBLOCK E]
     (MessageOffset_BODY E) vcblock = None ->
   ProcessVCBlock E message cur_offset from s = (Some true, s')).
Proof.
  intros Hdec Hversion Htag Hcore.
  unfold ProcessVCBlock. rewrite Hdec, Htag, Hcore.
  rewrite bool_decide_true by done. cbn [negb].
  destruct (negb (LOOKUP_NODE_MODE E) && BROADCAST_TREEBASED_CLUSTER_MODE E);
    [|by split].
  destruct (SetNodeVCBlock E _ _ _) as [message2|]; by split.
Qed.

Lemma encode_failure_keeps_success_witness :
  ProcessVCBlock
    (Bench.env (Some (Bench.signed_block [Bench.B] [])) false true false 10 5)
    [] 2 Peer0 (Bench.node Bench.committee)
  = (Some true,
     (ProcessVCBlockCore
        (Bench.env (Some (Bench.signed_block [Bench.B] [])) false true false 10 5)
        (Bench.signed_block [Bench.B] []) (Bench.node Bench.committee)).2).
Proof.
  refine (proj2 (encode_failure_keeps_success
                   (Bench.env (Some (Bench.signed_block [Bench.B] [])) false true false 10 5)
                   [] 2 Peer0 (Bench.node Bench.committee) _
                   (Bench.signed_block [Bench.B] []) eq_refl eq_refl eq_refl _) eq_refl).
  by vm_compute.
Defined.

(** ** The committee updates *)

(** C8: in guard mode both updates, the normal one and the one used at
    retrieval, return the DS committee they were given, for every block. *)
Theorem guard_mode_pins_committee (E : Env) (selfKey : PubKey) (vcblock : VCBlock)
    (dsComm : DequeOfNode) :
  GUARD_MODE E = true ->
  UpdateDSCommiteeCompositionAfterVC E selfKey vcblock dsComm = dsComm /\
  UpdateRetrieveDSCommiteeCompositionAfterVC E vcblock dsComm = dsComm.
Proof.
  intros Hguard.
  unfold UpdateDSCommiteeCompositionAfterVC, UpdateRetrieveDSCommiteeCompositionAfterVC.
  by rewrite Hguard.
Qed.

Lemma guard_mode_pins_committee_witness :
  UpdateDSCommiteeCompositionAfterVC (Bench.env None true true true 10 5) 9
    (Bench.signed_block [Bench.B; Bench.D] []) Bench.committee = Bench.committee /\
  UpdateRetrieveDSCommiteeCompositionAfterVC (Bench.env None true true true 10 5)
    (Bench.signed_block [Bench.B; Bench.D] []) Bench.committee = Bench.committee.
Proof.
  apply (guard_mode_pins_committee (Bench.env None true true true 10 5) 9
           (Bench.signed_block [Bench.B; Bench.D] []) Bench.committee).
  reflexivity.
Defined.

(** ** The fan-out *)

(** C9, as stated, fails: with NUM_DS_ELECTION at the largest [unsigned int]
    the sum wraps and the cluster size handed over is 0, not the maximum. *)
Lemma cluster_size_wraps :
  outbox (SendVCBlockToOtherShardNodes (Bench.env None false true true 5 4294967295)
            [] (Bench.node Bench.committee))
  = [([], 0, 3)] /\
  0 <> N.max 5 (4294967295 + 1).
Proof. split; [reflexivity | discriminate]. Qed.

(** C9, amended: when NUM_DS_ELECTION + 1 fits an [unsigned int], the
    cluster size handed to the broadcast layer is
    max(NUM_FORWARDED_BLOCK_RECEIVERS_PER_SHARD, NUM_DS_ELECTION + 1). *)
Theorem cluster_size_is_max (E : Env) (vcblock_message : bytes) (s : NodeState) :
  NUM_DS_ELECTION E + 1 < uint32_max ->
  SendVCBlockToOtherShardNodes E vcblock_message s
  = SendBlockToOtherShardNodes vcblock_message
      (N.max (NUM_FORWARDED_BLOCK_RECEIVERS_PER_SHARD E) (NUM_DS_ELECTION E + 1))
      (NUM_OF_TREEBASED_CHILD_CLUSTERS E) s.
Proof.
  intros Hfit. unfold SendVCBlockToOtherShardNodes, vc_cluster_size, wrap32.
  f_equal.
  destruct (N.leb_spec (NUM_FORWARDED_BLOCK_RECEIVERS_PER_SHARD E) (NUM_DS_ELECTION E)).
  - rewrite N.mod_small by assumption. lia.
  - lia.
Qed.

Lemma cluster_size_is_max_witness :
  outbox (SendVCBlockToOtherShardNodes (Bench.env None false true true 3 5)
            [] (Bench.node Bench.committee))
  = [([], 6, 3)].
Proof.
  rewrite (cluster_size_is_max (Bench.env None false true true 3 5) []
             (Bench.node Bench.committee)).
  - reflexivity.
  - reflexivity.
Defined.

(** ** Moving faulty leaders to the tail *)

Lemma erase_find_if (p : PairOfNode -> bool) (l : DequeOfNode) :
  (if negb (bool_decide (find_if p l = length l)) then erase (find_if p l) l else l)
  = (fix drop l := match l with
                   | [] => []
                   | y :: l' => if p y then l' else y :: drop l'
                   end) l.
Proof.
  induction l as [|y l IH]; [reflexivity|].
  cbn [find_if length]. destruct (p y).
  - by rewrite bool_decide_false.
  - rewrite <- IH. unfold erase. cbn [delete list_delete].
    repeat case_bool_decide; cbn [negb]; try reflexivity; lia.
Qed.

Lemma erase_find (x : PairOfNode) (l : DequeOfNode) :
  (if negb (bool_decide (find x l = length l)) then erase (find x l) l else l)
  = remove_first x l.
Proof.
  unfold find. rewrite erase_find_if.
  induction l as [|y l IH]; [reflexivity|].
  cbn [remove_first]. by rewrite IH.
Qed.

(** Both branches of the search look for the faulty leader itself: when its
    peer is [Peer()], the pair built for this node is the same pair. *)
Lemma eject_leader_eq (selfKey : PubKey) (dsComm : DequeOfNode) (f : PairOfNode) :
  eject_leader selfKey dsComm f = remove_first f dsComm ++ [f].
Proof.
  unfold eject_leader. destruct f as [pk peer]. cbn [fst snd].
  destruct (bool_decide (pk = selfKey) && bool_decide (peer = Peer0)) eqn:Hself.
  - apply andb_true_iff in Hself as [_ Hpeer].
    apply bool_decide_eq_true in Hpeer as ->.
    by rewrite erase_find.
  - by rewrite erase_find.
Qed.

Lemma remove_first_snoc (g f : PairOfNode) (l : DequeOfNode) :
  g <> f -> remove_first g (l ++ [f]) = remove_first g l ++ [f].
Proof.
  intros Hne. induction l as [|y l IH]; cbn [app remove_first].
  - by rewrite bool_decide_false by congruence.
  - case_bool_decide; [reflexivity|]. by rewrite IH.
Qed.

Lemma remove_firsts_snoc (fs : list PairOfNode) :
  forall (l : DequeOfNode) (f : PairOfNode),
    f ∉ fs -> remove_firsts fs (l ++ [f]) = remove_firsts fs l ++ [f].
Proof.
  induction fs as [|g fs IH]; intros l f Hnotin; [reflexivity|].
  apply not_elem_of_cons in Hnotin as [Hne Hnotin].
  unfold remove_firsts in *. cbn [foldl].
  rewrite remove_first_snoc by congruence. by apply IH.
Qed.

(** With no faulty leader listed twice, the loop leaves the committee
    without the first occurrence of each, followed by the list itself. *)
Lemma foldl_eject_leader (selfKey : PubKey) (fs : list PairOfNode) :
  forall dsComm : DequeOfNode,
    NoDup fs ->
    foldl (eject_leader selfKey) dsComm fs = remove_firsts fs dsComm ++ fs.
Proof.
  induction fs as [|f fs IH]; intros dsComm Hnodup.
  - cbn. by rewrite app_nil_r.
  - apply NoDup_cons in Hnodup as [Hnotin Hnodup].
    cbn [foldl]. rewrite eject_leader_eq, IH by assumption.
    rewrite remove_firsts_snoc by assumption.
    by rewrite <- app_assoc.
Qed.

Lemma occurrences_app (x : PairOfNode) (l k : DequeOfNode) :
  occurrences x (l ++ k) = (occurrences x l + occurrences x k)%nat.
Proof.
  induction l as [|y l IH]; [reflexivity|].
  cbn [app occurrences]. rewrite IH. lia.
Qed.

Lemma occurrences_remove_first_eq (x : PairOfNode) (l : DequeOfNode) :
  occurrences x (remove_first x l) = Nat.pred (occurrences x l).
Proof.
  induction l as [|y l IH]; [reflexivity|].
  cbn [remove_first occurrences]. case_bool_decide as Hy; [reflexivity|].
  cbn [occurrences]. rewrite bool_decide_false by assumption. exact IH.
Qed.

Lemma occurrences_remove_first_le (x g : PairOfNode) (l : DequeOfNode) :
  (occurrences x (remove_first g l) <= occurrences x l)%nat.
Proof.
  induction l as [|y l IH]; [reflexivity|].
  cbn [remove_first occurrences]. case_bool_decide.
  - lia.
  - cbn [occurrences]. lia.
Qed.

Lemma occurrences_remove_firsts_le (x : PairOfNode) (fs : list PairOfNode) :
  forall l : DequeOfNode,
    (occurrences x (remove_firsts fs l) <= occurrences x l)%nat.
Proof.
  induction fs as [|g fs IH]; intros l; [reflexivity|].
  unfold remove_firsts in *. cbn [foldl].
  etransitivity; [apply IH|apply occurrences_remove_first_le].
Qed.

Lemma occurrences_remove_firsts_elem (x : PairOfNode) (fs : list PairOfNode) :
  forall l : DequeOfNode,
    x ∈ fs -> (occurrences x l <= 1)%nat ->
    occurrences x (remove_firsts fs l) = 0%nat.
Proof.
  induction fs as [|g fs IH]; intros l Hin Hle.
  - by apply elem_of_nil in Hin.
  - unfold remove_firsts in *. cbn [foldl].
    destruct (decide (x = g)) as [->|Hne].
    + pose proof (occurrences_remove_firsts_le g fs (remove_first g l)) as Hmono.
      unfold remove_firsts in Hmono.
      rewrite occurrences_remove_first_eq in Hmono. lia.
    + apply elem_of_cons in Hin as [Heq|Hin]; [done|].
      apply IH; [assumption|].
      etransitivity; [apply occurrences_remove_first_le|assumption].
Qed.

Lemma occurrences_NoDup (x : PairOfNode) (fs : list PairOfNode) :
  NoDup fs -> x ∈ fs -> occurrences x fs = 1%nat.
Proof.
  induction 1 as [|g fs Hnotin Hnodup IH]; intros Hin.
  - by apply elem_of_nil in Hin.
  - cbn [occurrences]. apply elem_of_cons in Hin as [->|Hin].
    + rewrite bool_decide_true by reflexivity.
      assert (occurrences g fs = 0%nat); [|lia].
      clear -Hnotin. induction fs as [|y fs IH]; [reflexivity|].
      apply not_elem_of_cons in Hnotin as [Hne Hnotin].
      cbn [occurrences]. rewrite bool_decide_false by congruence. by apply IH.
    + rewrite bool_decide_false by (intros ->; contradiction).
      by rewrite IH.
Qed.

Lemma remove_first_absent (f : PairOfNode) (l : DequeOfNode) :
  occurrences f l = 0%nat ->
  remove_first f l = l /\ remove_first f (l ++ [f]) = l.
Proof.
  induction l as [|y l IH]; cbn [occurrences app remove_first]; intros Hocc.
  - by rewrite bool_decide_true.
  - case_bool_decide; [lia|]. destruct IH as [-> ->]; [lia|done].
Qed.

Lemma remove_firsts_snoc_listed (fs : list PairOfNode) :
  forall (l : DequeOfNode) (f : PairOfNode),
    f ∈ fs -> occurrences f l = 0%nat ->
    remove_firsts fs (l ++ [f]) = remove_firsts fs l.
Proof.
  induction fs as [|g fs IH]; intros l f Hin Hocc.
  - by apply elem_of_nil in Hin.
  - unfold remove_firsts in *. cbn [foldl].
    destruct (decide (g = f)) as [->|Hne].
    + by destruct (remove_first_absent f l Hocc) as [-> ->].
    + apply elem_of_cons in Hin as [->|Hin]; [done|].
      rewrite remove_first_snoc by assumption. apply IH; [assumption|].
      pose proof (occurrences_remove_first_le f g l). lia.
Qed.

(** Whatever the header lists, if no listed leader is in the committee more
    than once the loop leaves the committee without the listed leaders,
    followed by the list without its earlier repetitions. *)
Lemma foldl_eject_leader_listed (selfKey : PubKey) (fs : list PairOfNode) :
  forall dsComm : DequeOfNode,
    (forall f, f ∈ fs -> (occurrences f dsComm <= 1)%nat) ->
    foldl (eject_leader selfKey) dsComm fs = remove_firsts fs dsComm ++ remove_dups fs.
Proof.
  induction fs as [|f fs IH]; intros dsComm Hle.
  - cbn. by rewrite app_nil_r.
  - cbn [foldl remove_dups]. rewrite eject_leader_eq.
    assert (Hf : (occurrences f dsComm <= 1)%nat) by apply Hle, list_elem_of_here.
    assert (Hgone : occurrences f (remove_first f dsComm) = 0%nat)
      by (rewrite occurrences_remove_first_eq; lia).
    rewrite IH.
    + unfold decide_rel. destruct (list_elem_of_dec f fs) as [Hin|Hnotin].
      * by rewrite remove_firsts_snoc_listed.
      * rewrite remove_firsts_snoc by assumption. by rewrite <- app_assoc.
    + intros g Hg. rewrite occurrences_app. cbn [occurrences].
      destruct (decide (f = g)) as [->|Hne].
      * rewrite bool_decide_true by reflexivity. lia.
      * rewrite bool_decide_false by assumption.
        pose proof (occurrences_remove_first_le g f dsComm).
        pose proof (Hle g ltac:(by apply list_elem_of_further)). lia.
Qed.

Lemma remove_dups_NoDup (fs : list PairOfNode) : NoDup fs -> remove_dups fs = fs.
Proof.
  induction 1 as [|f fs Hnotin Hnodup IH]; [reflexivity|].
  cbn [remove_dups]. unfold decide_rel.
  destruct (list_elem_of_dec f fs); [done|]. by rewrite IH.
Qed.

(** C4, as stated, fails: a faulty leader that is in the committee twice is
    in it twice after the update. *)
Lemma faulty_not_moved_to_tail :
  ~ faulty_moved_to_tail [Bench.B]
      (UpdateDSCommiteeCompositionAfterVC (Bench.env None false true true 10 5) 9
         (Bench.signed_block [Bench.B] [])
         [Bench.A; Bench.B; Bench.B]).
Proof.
  intros [Honce _].
  specialize (Honce Bench.B ltac:(apply list_elem_of_here)).
  vm_compute in Honce. discriminate.
Qed.

(** C4, amended: with guard mode off, if no faulty leader of the header is
    in the committee more than once, then after the update every listed
    pair is in the committee exactly once and the listed pairs are its tail,
    in the order of the header (a pair listed again stands where its last
    listing puts it), behind the other members in their old order; when no
    pair is listed twice the tail is the list of the header itself;
    committee [A,B,C,D,E] with faulty [B,D] becomes [A,C,E,B,D], and then
    with faulty [B] becomes [A,C,E,D,B]. *)
Theorem faulty_leaders_moved_to_tail :
  (forall (E : Env) (selfKey : PubKey) (vcblock : VCBlock) (dsComm : DequeOfNode),
      GUARD_MODE E = false ->
      (forall f, f ∈ GetFaultyLeaders (GetHeader vcblock) ->
                 (occurrences f dsComm <= 1)%nat) ->
      faulty_moved_to_tail (GetFaultyLeaders (GetHeader vcblock))
        (UpdateDSCommiteeCompositionAfterVC E selfKey vcblock dsComm) /\
      UpdateDSCommiteeCompositionAfterVC E selfKey vcblock dsComm
      = remove_firsts (GetFaultyLeaders (GetHeader vcblock)) dsComm
        ++ remove_dups (GetFaultyLeaders (GetHeader vcblock)) /\
      (NoDup (GetFaultyLeaders (GetHeader vcblock)) ->
       UpdateDSCommiteeCompositionAfterVC E selfKey vcblock dsComm
       = remove_firsts (GetFaultyLeaders (GetHeader vcblock)) dsComm
         ++ GetFaultyLeaders (GetHeader vcblock))) /\
  UpdateDSCommiteeCompositionAfterVC (Bench.env None false true true 10 5) 9
    (Bench.signed_block [Bench.B; Bench.D] [])
    [Bench.A; Bench.B; Bench.C; Bench.D; Bench.E]
  = [Bench.A; Bench.C; Bench.E; Bench.B; Bench.D] /\
  UpdateDSCommiteeCompositionAfterVC (Bench.env None false true true 10 5) 9
    (Bench.signed_block [Bench.B] [])
    [Bench.A; Bench.C; Bench.E; Bench.B; Bench.D]
  = [Bench.A; Bench.C; Bench.E; Bench.D; Bench.B].
Proof.
  split; [|split; reflexivity].
  intros E selfKey vcblock dsComm Hguard Hle.
  unfold UpdateDSCommiteeCompositionAfterVC. rewrite Hguard.
  rewrite foldl_eject_leader_listed by assumption.
  split; [|split; [reflexivity|by intros ->%remove_dups_NoDup]].
  split; [|by eexists].
  intros f Hin. rewrite occurrences_app.
  rewrite occurrences_remove_firsts_elem by auto.
  rewrite occurrences_NoDup; [reflexivity|apply NoDup_remove_dups|].
  by apply elem_of_remove_dups.
Qed.

Lemma faulty_leaders_moved_to_tail_witness :
  faulty_moved_to_tail [Bench.B; Bench.D; Bench.B]
    (UpdateDSCommiteeCompositionAfterVC (Bench.env None false true true 10 5) 9
       (Bench.signed_block [Bench.B; Bench.D; Bench.B] []) Bench.committee) /\
  UpdateDSCommiteeCompositionAfterVC (Bench.env None false true true 10 5) 9
    (Bench.signed_block [Bench.B; Bench.D; Bench.B] []) Bench.committee
  = [Bench.A; Bench.C; Bench.E; Bench.D; Bench.B].
Proof.
  split; [|reflexivity].
  apply (proj1 faulty_leaders_moved_to_tail (Bench.env None false true true 10 5) 9
           (Bench.signed_block [Bench.B; Bench.D; Bench.B] []) Bench.committee).
  - reflexivity.
  - intros f Hin. apply list_elem_of_In in Hin.
    destruct Hin as [<-|[<-|[<-|[]]]]; vm_compute; lia.
Defined.

(** ** The difficulty retarget as the spec describes it

    On the three inputs of [difficulty_adjustment_small_network] the
    description of section 4.6 gives 3, 4 and 6, where the test expects 4,
    5 and 5: the description is not the function the tests exercise. *)
Lemma section_4_6_reading_on_test_inputs :
  Difficulty.CalculateNewDifficultyCore 3 3 20 23 200 99 200 10000 = 3%Z /\
  Difficulty.CalculateNewDifficultyCore 3 3 20 23 200 99 10000 10000 = 4%Z /\
  Difficulty.CalculateNewDifficultyCore 6 3 20 19 200 99 10001 10000 = 6%Z.
Proof. repeat split. Qed.

(** * Further properties of the committee updates *)

Lemma eject_leader_by_key_eq (dsComm : DequeOfNode) (f : PairOfNode) :
  eject_leader_by_key dsComm f
  = remove_first_if (fun p => bool_decide (p.1 = f.1)) dsComm ++ [f].
Proof.
  unfold eject_leader_by_key. f_equal.
  rewrite (erase_find_if (fun p => bool_decide (p.1 = f.1)) dsComm).
  induction dsComm as [|y l IH]; [reflexivity|].
  cbn [remove_first_if]. by rewrite IH.
Qed.

(** X1: The search under [faultyLeader.first == m_selfKey.second &&
    faultyLeader.second == Peer()] looks for [(faultyLeader.first, Peer())],
    which is [faultyLeader] itself: the node's own key makes no
    difference to the update. *)
Theorem update_ignores_self_key (E : Env) (selfKey selfKey' : PubKey)
    (vcblock : VCBlock) (dsComm : DequeOfNode) :
  UpdateDSCommiteeCompositionAfterVC E selfKey vcblock dsComm
  = UpdateDSCommiteeCompositionAfterVC E selfKey' vcblock dsComm.
Proof.
  unfold UpdateDSCommiteeCompositionAfterVC. destruct (GUARD_MODE E); [reflexivity|].
  generalize dependent dsComm.
  induction (GetFaultyLeaders (GetHeader vcblock)) as [|f fs IH]; intros dsComm.
  - reflexivity.
  - cbn [foldl]. rewrite !eject_leader_eq. apply IH.
Qed.

Lemma remove_first_perm (f : PairOfNode) (l : DequeOfNode) :
  f ∈ l -> remove_first f l ++ [f] ≡ₚ l.
Proof.
  induction l as [|y l IH]; intros Hin.
  - by apply elem_of_nil in Hin.
  - cbn [remove_first]. case_bool_decide as Hy.
    + subst y. by rewrite Permutation_app_comm.
    + apply elem_of_cons in Hin as [->|Hin]; [done|].
      cbn [app]. by rewrite IH.
Qed.

Lemma foldl_eject_leader_perm (selfKey : PubKey) (fs : list PairOfNode) :
  forall dsComm : DequeOfNode,
    (forall f, f ∈ fs -> f ∈ dsComm) ->
    foldl (eject_leader selfKey) dsComm fs ≡ₚ dsComm.
Proof.
  induction fs as [|f fs IH]; intros dsComm Hin; [reflexivity|].
  cbn [foldl].
  assert (Hstep : eject_leader selfKey dsComm f ≡ₚ dsComm).
  { rewrite eject_leader_eq. apply remove_first_perm, Hin, list_elem_of_here. }
  rewrite IH; [exact Hstep|].
  intros g Hg. rewrite Hstep. apply Hin. by apply list_elem_of_further.
Qed.

(** X2: When every faulty leader of the header is a member of the committee,
    as the same (key, peer) pair, the update only reorders the committee:
    no member is lost, added or duplicated. *)
Theorem update_permutes_committee (E : Env) (selfKey : PubKey) (vcblock : VCBlock)
    (dsComm : DequeOfNode) :
  (forall f, f ∈ GetFaultyLeaders (GetHeader vcblock) -> f ∈ dsComm) ->
  UpdateDSCommiteeCompositionAfterVC E selfKey vcblock dsComm ≡ₚ dsComm.
Proof.
  intros Hin. unfold UpdateDSCommiteeCompositionAfterVC.
  destruct (GUARD_MODE E); [reflexivity|].
  by apply foldl_eject_leader_perm.
Qed.

Lemma update_permutes_committee_witness :
  UpdateDSCommiteeCompositionAfterVC (Bench.env None false true true 10 5) 9
    (Bench.signed_block [Bench.D; Bench.A] []) Bench.committee
  ≡ₚ Bench.committee.
Proof.
  apply (update_permutes_committee (Bench.env None false true true 10 5) 9
           (Bench.signed_block [Bench.D; Bench.A] []) Bench.committee).
  intros f Hin. apply list_elem_of_In in Hin. apply list_elem_of_In.
  destruct Hin as [<-|[<-|[]]]; vm_compute; tauto.
Defined.

Lemma elem_of_eject_leader (selfKey : PubKey) (dsComm : DequeOfNode)
    (f m : PairOfNode) :
  m ∈ eject_leader selfKey dsComm f <-> m = f \/ m ∈ dsComm.
Proof.
  rewrite eject_leader_eq, elem_of_app, list_elem_of_singleton.
  induction dsComm as [|y l IH]; cbn [remove_first].
  - tauto.
  - case_bool_decide as Hy.
    + subst y. rewrite elem_of_cons. tauto.
    + rewrite !elem_of_cons. tauto.
Qed.

Lemma length_eject_leader (selfKey : PubKey) (dsComm : DequeOfNode) (f : PairOfNode) :
  (length dsComm <= length (eject_leader selfKey dsComm f) <= S (length dsComm))%nat.
Proof.
  rewrite eject_leader_eq, length_app. cbn [length].
  induction dsComm as [|y l IH]; cbn [remove_first length]; [lia|].
  case_bool_decide; cbn [length]; lia.
Qed.

(** X3: With guard mode off, whether or not a faulty leader is found in the
    committee it is a member afterwards, every former member still is, and
    the committee never shrinks: it grows by at most one entry per leader
    listed. *)
Theorem update_keeps_members_and_adds_leaders (E : Env) (selfKey : PubKey)
    (vcblock : VCBlock) (dsComm : DequeOfNode) :
  GUARD_MODE E = false ->
  (forall m, m ∈ UpdateDSCommiteeCompositionAfterVC E selfKey vcblock dsComm <->
             m ∈ GetFaultyLeaders (GetHeader vcblock) \/ m ∈ dsComm) /\
  (length dsComm
   <= length (UpdateDSCommiteeCompositionAfterVC E selfKey vcblock dsComm)
   <= length dsComm + length (GetFaultyLeaders (GetHeader vcblock)))%nat.
Proof.
  intros Hguard. unfold UpdateDSCommiteeCompositionAfterVC. rewrite Hguard.
  generalize dependent dsComm.
  induction (GetFaultyLeaders (GetHeader vcblock)) as [|f fs IH]; intros dsComm.
  - cbn. split; [|lia]. intros m. rewrite elem_of_nil. tauto.
  - cbn [foldl length]. destruct (IH (eject_leader selfKey dsComm f)) as [Hmem Hlen].
    pose proof (length_eject_leader selfKey dsComm f) as Hstep.
    split; [|lia].
    intros m. rewrite Hmem, elem_of_eject_leader, elem_of_cons. tauto.
Qed.

Lemma update_keeps_members_and_adds_leaders_witness :
  (6, Peer0) ∈ UpdateDSCommiteeCompositionAfterVC (Bench.env None false true true 10 5) 9
                 (Bench.signed_block [(6, Peer0)] []) Bench.committee.
Proof.
  apply (proj1 (update_keeps_members_and_adds_leaders
                  (Bench.env None false true true 10 5) 9
                  (Bench.signed_block [(6, Peer0)] []) Bench.committee eq_refl)).
  left. apply list_elem_of_here.
Defined.

Lemma foldl_snoc_last {A B} (g : list A -> B -> list A) (toA : B -> A) :
  (forall d f, last (g d f) = Some (toA f)) ->
  forall (fs : list B) (d : list A),
    fs <> [] -> last (foldl g d fs) = toA <$> last fs.
Proof.
  intros Hg fs. induction fs as [|f fs IH] using rev_ind; intros d Hne; [done|].
  rewrite foldl_app. cbn [foldl]. by rewrite Hg, last_snoc.
Qed.

(** X4: With guard mode off and at least one faulty leader in the header, the
    last member of the committee after either update, the normal one or
    the one used at retrieval, is the last faulty leader of the header. *)
Theorem last_faulty_leader_is_last_member (E : Env) (selfKey : PubKey)
    (vcblock : VCBlock) (dsComm : DequeOfNode) :
  GUARD_MODE E = false ->
  GetFaultyLeaders (GetHeader vcblock) <> [] ->
  last (UpdateDSCommiteeCompositionAfterVC E selfKey vcblock dsComm)
  = last (GetFaultyLeaders (GetHeader vcblock)) /\
  last (UpdateRetrieveDSCommiteeCompositionAfterVC E vcblock dsComm)
  = last (GetFaultyLeaders (GetHeader vcblock)).
Proof.
  intros Hguard Hne.
  unfold UpdateDSCommiteeCompositionAfterVC, UpdateRetrieveDSCommiteeCompositionAfterVC.
  rewrite Hguard. split.
  - rewrite (foldl_snoc_last (eject_leader selfKey) id) by
      (done || intros; by rewrite eject_leader_eq, last_snoc).
    by destruct (last _).
  - rewrite (foldl_snoc_last eject_leader_by_key id) by
      (done || intros; by rewrite eject_leader_by_key_eq, last_snoc).
    by destruct (last _).
Qed.

Lemma last_faulty_leader_is_last_member_witness :
  last (UpdateDSCommiteeCompositionAfterVC (Bench.env None false true true 10 5) 9
          (Bench.signed_block [Bench.D; Bench.A] []) Bench.committee)
  = Some Bench.A.
Proof.
  apply (last_faulty_leader_is_last_member (Bench.env None false true true 10 5) 9
           (Bench.signed_block [Bench.D; Bench.A] []) Bench.committee).
  - reflexivity.
  - discriminate.
Defined.

Lemma remove_first_if_key_perm (f : PairOfNode) (l : DequeOfNode) :
  f.1 ∈ l.*1 ->
  (remove_first_if (fun p => bool_decide (p.1 = f.1)) l ++ [f]).*1 ≡ₚ l.*1.
Proof.
  induction l as [|y l IH]; intros Hin.
  - by apply elem_of_nil in Hin.
  - cbn [remove_first_if]. case_bool_decide as Hy.
    + rewrite fmap_app. cbn [fmap list_fmap]. rewrite <- Hy.
      by rewrite Permutation_app_comm.
    + cbn [fmap list_fmap] in Hin. apply elem_of_cons in Hin as [Heq|Hin]; [done|].
      cbn [app fmap list_fmap]. f_equiv. by apply IH.
Qed.

(** The update used at retrieval compares public keys only.  When the key
    of every faulty leader is the key of some member, the update keeps the
    keys of the committee, reordered: each such member is replaced by the
    pair of the header, at the tail. *)
Theorem retrieve_update_permutes_keys (E : Env) (vcblock : VCBlock)
    (dsComm : DequeOfNode) :
  (forall f, f ∈ GetFaultyLeaders (GetHeader vcblock) -> f.1 ∈ dsComm.*1) ->
  (UpdateRetrieveDSCommiteeCompositionAfterVC E vcblock dsComm).*1 ≡ₚ dsComm.*1.
Proof.
  intros Hin. unfold UpdateRetrieveDSCommiteeCompositionAfterVC.
  destruct (GUARD_MODE E); [reflexivity|].
  generalize dependent dsComm.
  induction (GetFaultyLeaders (GetHeader vcblock)) as [|f fs IH]; intros dsComm Hin;
    [reflexivity|].
  cbn [foldl].
  assert (Hstep : (eject_leader_by_key dsComm f).*1 ≡ₚ dsComm.*1).
  { rewrite eject_leader_by_key_eq.
    apply remove_first_if_key_perm, Hin, list_elem_of_here. }
  rewrite IH; [exact Hstep|].
  intros g Hg. rewrite Hstep. apply Hin. by apply list_elem_of_further.
Qed.

Lemma retrieve_update_permutes_keys_witness :
  UpdateRetrieveDSCommiteeCompositionAfterVC (Bench.env None false true true 10 5)
    (Bench.signed_block [(2, Peer0)] []) Bench.committee
  = [Bench.A; Bench.C; Bench.D; Bench.E; (2, Peer0)] /\
  (UpdateRetrieveDSCommiteeCompositionAfterVC (Bench.env None false true true 10 5)
     (Bench.signed_block [(2, Peer0)] []) Bench.committee).*1
  ≡ₚ Bench.committee.*1.
Proof.
  split; [reflexivity|].
  apply (retrieve_update_permutes_keys (Bench.env None false true true 10 5)
           (Bench.signed_block [(2, Peer0)] []) Bench.committee).
  intros f Hin. apply list_elem_of_In in Hin. apply list_elem_of_In.
  destruct Hin as [<-|[]]; vm_compute; tauto.
Defined.

Lemma remove_first_if_key_filter (k : PubKey) (l : DequeOfNode) :
  NoDup l.*1 ->
  remove_first_if (fun p => bool_decide (p.1 = k)) l = filter (fun m => m.1 <> k) l.
Proof.
  induction l as [|y l IH]; intros Hnodup; [reflexivity|].
  cbn [fmap list_fmap] in Hnodup. apply NoDup_cons in Hnodup as [Hnotin Hnodup].
  cbn [remove_first_if]. unfold DequeOfNode, PairOfNode in *. case_bool_decide as Hy.
  - rewrite filter_cons_False by (intros Hne; by apply Hne).
    subst k. clear -Hnotin. induction l as [|z l IH]; [reflexivity|].
    cbn [fmap list_fmap] in Hnotin. apply not_elem_of_cons in Hnotin as [Hne Hnotin].
    rewrite filter_cons_True by congruence. by rewrite <- IH.
  - rewrite filter_cons_True by assumption. by rewrite IH.
Qed.

Lemma foldl_eject_leader_by_key (fs : list PairOfNode) :
  forall dsComm : DequeOfNode,
    NoDup dsComm.*1 -> NoDup fs.*1 ->
    foldl eject_leader_by_key dsComm fs
    = filter (fun m => m.1 ∉ fs.*1) dsComm ++ fs.
Proof.
  unfold DequeOfNode, PairOfNode in *.
  induction fs as [|f fs IH]; intros dsComm Hcomm Hfs.
  - cbn [foldl fmap list_fmap]. rewrite app_nil_r.
    symmetry. clear. induction dsComm as [|y l IH]; [reflexivity|].
    rewrite filter_cons_True by apply not_elem_of_nil. by rewrite IH.
  - cbn [fmap list_fmap] in Hfs. apply NoDup_cons in Hfs as [Hnotin Hfs].
    cbn [foldl]. rewrite eject_leader_by_key_eq, remove_first_if_key_filter by assumption.
    unfold DequeOfNode, PairOfNode in *.
    assert (Hstep : NoDup (filter (fun m : PubKey * Peer => m.1 <> f.1) dsComm ++ [f]).*1).
    { rewrite fmap_app. apply NoDup_app. split; [|split].
      - apply (sublist_NoDup _ dsComm.*1); [assumption|].
        apply fmap_sublist, sublist_filter.
      - intros k Hk Hk'. cbn [fmap list_fmap] in Hk'.
        apply list_elem_of_singleton in Hk' as ->.
        apply list_elem_of_fmap in Hk as (m & Hm & Hin).
        apply list_elem_of_filter in Hin as [Hne _]. congruence.
      - apply NoDup_singleton. }
    rewrite (IH _ Hstep Hfs).
    rewrite filter_app, list_filter_filter.
    rewrite (filter_cons_True _ f []) by exact Hnotin.
    rewrite filter_nil, <- app_assoc. cbn [app fmap list_fmap]. f_equal.
    apply list_filter_iff. intros m. rewrite not_elem_of_cons. tauto.
Qed.

(** X5: the update used at retrieval compares public keys only.  With guard
    mode off and public keys pairwise different, in the committee and in
    the header's list, it returns the members whose key is not listed, in
    their old order, followed by the pairs of the header: a member whose
    key is listed is replaced, at the tail, by the pair the header gives,
    whatever peer the committee had for it (and a pair whose key is not in
    the committee is appended). *)
Theorem retrieve_update_replaces_by_key (E : Env) (vcblock : VCBlock)
    (dsComm : DequeOfNode) :
  GUARD_MODE E = false ->
  NoDup dsComm.*1 ->
  NoDup (GetFaultyLeaders (GetHeader vcblock)).*1 ->
  UpdateRetrieveDSCommiteeCompositionAfterVC E vcblock dsComm
  = filter (fun m => m.1 ∉ (GetFaultyLeaders (GetHeader vcblock)).*1) dsComm
    ++ GetFaultyLeaders (GetHeader vcblock).
Proof.
  intros Hguard Hcomm Hfaulty.
  unfold UpdateRetrieveDSCommiteeCompositionAfterVC. rewrite Hguard.
  by apply foldl_eject_leader_by_key.
Qed.

Lemma retrieve_update_replaces_by_key_witness :
  UpdateRetrieveDSCommiteeCompositionAfterVC (Bench.env None false true true 10 5)
    (Bench.signed_block [(4, Peer0); (2, mkPeer 7 7); (8, Peer0)] []) Bench.committee
  = [Bench.A; Bench.C; Bench.E; (4, Peer0); (2, mkPeer 7 7); (8, Peer0)].
Proof.
  rewrite (retrieve_update_replaces_by_key (Bench.env None false true true 10 5)
             (Bench.signed_block [(4, Peer0); (2, mkPeer 7 7); (8, Peer0)] [])
             Bench.committee).
  - reflexivity.
  - reflexivity.
  - apply (bool_decide_unpack _). by vm_compute.
  - apply (bool_decide_unpack _). by vm_compute.
Defined.

Lemma remove_first_if_key_eq (f : PairOfNode) (l : DequeOfNode) :
  NoDup l.*1 -> f ∈ l ->
  remove_first_if (fun p => bool_decide (p.1 = f.1)) l = remove_first f l.
Proof.
  induction l as [|y l IH]; intros Hnodup Hin; [reflexivity|].
  cbn [fmap list_fmap] in Hnodup. apply NoDup_cons in Hnodup as [Hnotin Hnodup].
  cbn [remove_first_if remove_first].
  destruct (decide (y = f)) as [->|Hne].
  - by rewrite !bool_decide_true.
  - apply elem_of_cons in Hin as [->|Hin]; [done|].
    rewrite !bool_decide_false; [by rewrite IH|done|].
    intros Hkey. apply Hnotin. rewrite Hkey.
    by apply (list_elem_of_fmap_2 fst).
Qed.

(** X6: On a committee whose public keys are pairwise different, and for faulty
    leaders that are members of it as the same (key, peer) pairs, the update
    used at retrieval and the normal update give the same committee. *)
Theorem retrieve_update_agrees_with_update (E : Env) (selfKey : PubKey)
    (vcblock : VCBlock) (dsComm : DequeOfNode) :
  NoDup dsComm.*1 ->
  (forall f, f ∈ GetFaultyLeaders (GetHeader vcblock) -> f ∈ dsComm) ->
  UpdateRetrieveDSCommiteeCompositionAfterVC E vcblock dsComm
  = UpdateDSCommiteeCompositionAfterVC E selfKey vcblock dsComm.
Proof.
  intros Hnodup Hin.
  unfold UpdateRetrieveDSCommiteeCompositionAfterVC, UpdateDSCommiteeCompositionAfterVC.
  destruct (GUARD_MODE E); [reflexivity|].
  generalize dependent dsComm.
  induction (GetFaultyLeaders (GetHeader vcblock)) as [|f fs IH];
    intros dsComm Hnodup Hin; [reflexivity|].
  cbn [foldl].
  assert (Hf : f ∈ dsComm) by apply Hin, list_elem_of_here.
  assert (Hstep : eject_leader_by_key dsComm f = eject_leader selfKey dsComm f).
  { rewrite eject_leader_by_key_eq, eject_leader_eq.
    by rewrite remove_first_if_key_eq. }
  assert (Hperm : eject_leader selfKey dsComm f ≡ₚ dsComm).
  { rewrite eject_leader_eq. by apply remove_first_perm. }
  rewrite Hstep. apply IH.
  - by rewrite Hperm.
  - intros g Hg. rewrite Hperm. apply Hin. by apply list_elem_of_further.
Qed.

Lemma retrieve_update_agrees_with_update_witness :
  UpdateRetrieveDSCommiteeCompositionAfterVC (Bench.env None false true true 10 5)
    (Bench.signed_block [Bench.B; Bench.D] []) Bench.committee
  = UpdateDSCommiteeCompositionAfterVC (Bench.env None false true true 10 5) 9
      (Bench.signed_block [Bench.B; Bench.D] []) Bench.committee.
Proof.
  apply (retrieve_update_agrees_with_update (Bench.env None false true true 10 5) 9
           (Bench.signed_block [Bench.B; Bench.D] []) Bench.committee).
  - apply (bool_decide_unpack _). by vm_compute.
  - intros f Hin. apply list_elem_of_In in Hin. apply list_elem_of_In.
    destruct Hin as [<-|[<-|[]]]; vm_compute; tauto.
Defined.

Lemma remove_first_not_elem (f : PairOfNode) (l : DequeOfNode) :
  f ∉ l -> remove_first f l = l.
Proof.
  induction l as [|y l IH]; intros Hnotin; [reflexivity|].
  apply not_elem_of_cons in Hnotin as [Hne Hnotin].
  cbn [remove_first]. rewrite bool_decide_false by congruence. by rewrite IH.
Qed.

(** X7: A faulty leader listed with another peer than the committee has for its
    key is treated differently by the two updates (guard mode off, keys of
    the committee pairwise different): the normal update finds nothing to
    erase and appends the pair, so the key is in the committee twice; the
    update used at retrieval erases the member with that key and appends
    the pair of the header. *)
Theorem stale_peer_is_replaced_only_at_retrieval (E : Env) (selfKey : PubKey)
    (vcblock : VCBlock) (dsComm : DequeOfNode) (pk : PubKey) (peer peer' : Peer) :
  GUARD_MODE E = false ->
  NoDup dsComm.*1 ->
  (pk, peer) ∈ dsComm ->
  peer <> peer' ->
  GetFaultyLeaders (GetHeader vcblock) = [(pk, peer')] ->
  UpdateDSCommiteeCompositionAfterVC E selfKey vcblock dsComm
  = dsComm ++ [(pk, peer')] /\
  UpdateRetrieveDSCommiteeCompositionAfterVC E vcblock dsComm
  = remove_first (pk, peer) dsComm ++ [(pk, peer')].
Proof.
  intros Hguard Hnodup Hin Hpeer Hfaulty.
  unfold UpdateDSCommiteeCompositionAfterVC, UpdateRetrieveDSCommiteeCompositionAfterVC.
  rewrite Hguard, Hfaulty. cbn [foldl]. split.
  - rewrite eject_leader_eq, remove_first_not_elem; [reflexivity|].
    intros Hin'. apply Hpeer.
    clear -Hnodup Hin Hin'. induction dsComm as [|y l IH]; [by apply elem_of_nil in Hin|].
    cbn [fmap list_fmap] in Hnodup. apply NoDup_cons in Hnodup as [Hnotin Hnodup].
    apply elem_of_cons in Hin as [Hy|Hin], Hin' as [Hy'|Hin'].
    + congruence.
    + subst y. exfalso. apply Hnotin. by apply (list_elem_of_fmap_2 fst) in Hin'.
    + subst y. exfalso. apply Hnotin. by apply (list_elem_of_fmap_2 fst) in Hin.
    + by apply IH.
  - rewrite eject_leader_by_key_eq. f_equal.
    by apply (remove_first_if_key_eq (pk, peer)).
Qed.

Lemma stale_peer_is_replaced_only_at_retrieval_witness :
  UpdateDSCommiteeCompositionAfterVC (Bench.env None false true true 10 5) 9
    (Bench.signed_block [(2, Peer0)] []) Bench.committee
  = [Bench.A; Bench.B; Bench.C; Bench.D; Bench.E; (2, Peer0)] /\
  UpdateRetrieveDSCommiteeCompositionAfterVC (Bench.env None false true true 10 5)
    (Bench.signed_block [(2, Peer0)] []) Bench.committee
  = [Bench.A; Bench.C; Bench.D; Bench.E; (2, Peer0)].
Proof.
  apply (stale_peer_is_replaced_only_at_retrieval (Bench.env None false true true 10 5) 9
           (Bench.signed_block [(2, Peer0)] []) Bench.committee
           2 (mkPeer 167772162 33133) Peer0).
  - reflexivity.
  - apply (bool_decide_unpack _). by vm_compute.
  - apply list_elem_of_In. vm_compute. tauto.
  - discriminate.
  - reflexivity.
Defined.

(** * Further properties of the co-signature check *)

Lemma collect_keys_throws_iff (comm : DequeOfNode) (B2 : list bool) :
  forall (index : nat) (keys : list PubKey) (count : N),
    (index <= length B2)%nat ->
    collect_keys comm B2 index keys count = None <->
    (length B2 < index + length comm)%nat.
Proof.
  induction comm as [|kv rest IH]; intros index keys count Hle; cbn [collect_keys length].
  - split; [discriminate|lia].
  - destruct (B2 !! index) as [b|] eqn:Hb.
    + apply lookup_lt_Some in Hb.
      destruct b; rewrite IH by lia; lia.
    + apply lookup_ge_None in Hb. split; [lia|done].
Qed.

(** X8: The loop over the committee reads [B2.at(index)] once for every member:
    it throws exactly when the bitmap is shorter than the committee, the
    case the size test before the loop turns away. *)
Theorem bitmap_access_throws_iff_short (comm : DequeOfNode) (B2 : list bool) :
  collect_keys comm B2 0 [] 0 = None <-> (length B2 < length comm)%nat.
Proof.
  apply (collect_keys_throws_iff comm B2 0%nat [] 0). lia.
Qed.

Lemma popcount_selected_keys (comm : DequeOfNode) :
  forall B2 : list bool,
    length comm = length B2 ->
    popcount B2 = N.of_nat (length (selected_keys comm B2)) /\
    selected_keys comm B2 `sublist_of` comm.*1.
Proof.
  induction comm as [|kv rest IH]; intros B2 Hlen.
  - destruct B2; [|discriminate]. split; [reflexivity|]. constructor.
  - destruct B2 as [|b B2]; [discriminate|]. injection Hlen as Hlen.
    destruct (IH B2 Hlen) as [Hcount Hsub].
    destruct b; cbn [selected_keys popcount length fmap list_fmap].
    + split; [lia|]. by constructor.
    + split; [assumption|]. by constructor.
Qed.

(** X9: When the verifier returns [true], the aggregated key was built from
    exactly NumForConsensus(|B2|) public keys, all of them keys of
    committee members, in committee order, and it verifies [cs2]. *)
Theorem verified_block_has_quorum_of_member_keys (E : Env) (vcblock : VCBlock)
    (dsComm : DequeOfNode) :
  VerifyVCBlockCoSignature E vcblock dsComm = Some true ->
  exists keys aggregatedKey message,
    collect_keys dsComm (GetB2 vcblock) 0 [] 0
    = Some (keys, NumForConsensus (N.of_nat (length (GetB2 vcblock)))) /\
    N.of_nat (length keys) = NumForConsensus (N.of_nat (length dsComm)) /\
    keys `sublist_of` dsComm.*1 /\
    AggregatePubKeys E keys = Some aggregatedKey /\
    signed_message E vcblock = Some message /\
    MultiSigVerify E message (GetCS2 vcblock) aggregatedKey = true.
Proof.
  unfold VerifyVCBlockCoSignature.
  case_bool_decide as Hlen; cbn [negb]; [|discriminate].
  rewrite (collect_keys_total _ _ Hlen).
  case_bool_decide as Hcount; cbn [negb]; [|discriminate].
  destruct (AggregatePubKeys E _) as [aggregatedKey|] eqn:Hagg; [|discriminate].
  destruct (signed_message E vcblock) as [message|] eqn:Hmsg; [|discriminate].
  destruct (MultiSigVerify E _ _ _) eqn:Hverify; [|discriminate].
  intros _. exists (selected_keys dsComm (GetB2 vcblock)), aggregatedKey, message.
  destruct (popcount_selected_keys dsComm (GetB2 vcblock) Hlen) as [Hpop Hsub].
  repeat split; try assumption.
  - by rewrite Hcount.
  - rewrite <- Hpop, Hcount. by rewrite Hlen.
Qed.

Lemma verified_block_has_quorum_of_member_keys_witness :
  exists keys aggregatedKey message,
    collect_keys Bench.committee (GetB2 (Bench.signed_block [] [])) 0 [] 0
    = Some (keys, NumForConsensus (N.of_nat (length (GetB2 (Bench.signed_block [] []))))) /\
    N.of_nat (length keys) = NumForConsensus (N.of_nat (length Bench.committee)) /\
    keys `sublist_of` Bench.committee.*1 /\
    AggregatePubKeys (Bench.env None false true true 10 5) keys = Some aggregatedKey /\
    signed_message (Bench.env None false true true 10 5) (Bench.signed_block [] [])
    = Some message /\
    MultiSigVerify (Bench.env None false true true 10 5) message
      (GetCS2 (Bench.signed_block [] [])) aggregatedKey = true.
Proof.
  apply (verified_block_has_quorum_of_member_keys
           (Bench.env None false true true 10 5) (Bench.signed_block [] [])
           Bench.committee).
  reflexivity.
Defined.

(** * Further properties of the pipeline *)

(** The three ways [ProcessVCBlock] ends: a gate fails; every gate passes
    and the store refuses the write; every gate passes and the block is
    committed. *)
Lemma ProcessVCBlock_outcome (E : Env) (message : bytes) (cur_offset : N)
    (from : Peer) (s : NodeState) :
  ProcessVCBlock E message cur_offset from s = (Some false, s) \/
  exists vcblock,
    GetNodeVCBlock E message cur_offset = Some vcblock /\
    gates_pass E vcblock s /\
    ((PutVCBlockSucceeds E (GetBlockHash vcblock) (VCBlockSerialize E vcblock) = false /\
      ProcessVCBlock E message cur_offset from s
      = (Some false,
         mkNodeState (m_currentEpochNum s) (m_DSCommittee s)
           (m_blocklinkchain s ++ [vc_link E vcblock s]) (m_selfKey s)
           (vcBlockDB s) (outbox s))) \/
     (PutVCBlockSucceeds E (GetBlockHash vcblock) (VCBlockSerialize E vcblock) = true /\
      ProcessVCBlock E message cur_offset from s
      = (Some true,
         mkNodeState (m_currentEpochNum s)
           (UpdateDSCommiteeCompositionAfterVC E (m_selfKey s) vcblock (m_DSCommittee s))
           (m_blocklinkchain s ++ [vc_link E vcblock s]) (m_selfKey s)
           (<[GetBlockHash vcblock := VCBlockSerialize E vcblock]> (vcBlockDB s))
           (outbox s ++ vc_forwarded E vcblock)))).
Proof.
  pose proof (ProcessVCBlock_gate_fails E) as Hgate.
  destruct (GetNodeVCBlock E message cur_offset) as [vcblock|] eqn:Hdec;
    [|left; by apply (Hgate GDecode); rewrite Hdec].
  assert (Hfails : forall g, gate_fails E g (Some vcblock) s ->
            ProcessVCBlock E message cur_offset from s = (Some false, s)).
  { intros g Hg. apply (Hgate g). by rewrite Hdec. }
  destruct (decide (GetVersion (GetHeader vcblock) = VCBLOCK_VERSION E)) as [Hversion|];
    [|left; by apply (Hfails GVersion)].
  destruct (IsDSBlockVCState E (GetViewChangeState (GetHeader vcblock))) eqn:Htag;
    [left; by apply (Hfails GStateTag)|].
  destruct (decide (GetViewChangeEpochNo (GetHeader vcblock) = m_currentEpochNum s))
    as [Hepoch|]; [|left; by apply (Hfails GEpoch)].
  destruct (CheckWhetherBlockIsLatest E (GetViewChangeDSEpochNo (GetHeader vcblock))
              (GetViewChangeEpochNo (GetHeader vcblock))) eqn:Hfresh;
    [|left; by apply (Hfails GFreshness)].
  destruct (decide (GetMyHash E (GetHeader vcblock) = GetBlockHash vcblock)) as [Hself|];
    [|left; by apply (Hfails GSelfHash)].
  destruct (decide (is_Some (vcBlockDB s !! GetMyHash E (GetHeader vcblock)))) as [|Hdup];
    [left; by apply (Hfails GDuplicate)|].
  destruct (VerifyTimestamp E (GetTimestamp vcblock) (vc_timestamp_tolerance E)) eqn:Htime;
    [|left; by apply (Hfails GTimestamp)].
  destruct (decide (GetDSCommitteeHash E (m_DSCommittee s)
                    = Some (GetCommitteeHash (GetHeader vcblock)))) as [Hhash|];
    [|left; by apply (Hfails GCommitteeHash)].
  destruct (decide (VerifyVCBlockCoSignature E vcblock (m_DSCommittee s) = Some true))
    as [Hsig|]; [|left; by apply (Hfails GCoSignature)].
  right. exists vcblock. split; [reflexivity|].
  assert (Hpass : gates_pass E vcblock s).
  { intros g Hg. destruct g; cbn; try done; congruence. }
  split; [exact Hpass|].
  unfold ProcessVCBlock. rewrite Hdec, Htag.
  rewrite bool_decide_true by done. cbn [negb].
  rewrite (ProcessVCBlockCore_gates_pass E vcblock s Hpass).
  unfold commit_vc_block, PutVCBlock, AddBlockLink, set_DSCommittee, vc_forwarded,
    vc_frame, SendVCBlockToOtherShardNodes, SendBlockToOtherShardNodes, vc_link.
  cbn [m_currentEpochNum m_DSCommittee m_blocklinkchain m_selfKey vcBlockDB outbox].
  destruct (PutVCBlockSucceeds E _ _); cbn [fst snd]; [right|left; by split].
  split; [reflexivity|].
  destruct (negb (LOOKUP_NODE_MODE E) && BROADCAST_TREEBASED_CLUSTER_MODE E);
    [|by rewrite app_nil_r].
  destruct (SetNodeVCBlock E _ _ _); cbn [m_currentEpochNum m_DSCommittee
    m_blocklinkchain m_selfKey vcBlockDB outbox]; [reflexivity|by rewrite app_nil_r].
Qed.

(** X11: What a successful [ProcessVCBlock] has done, and nothing else: one VC
    link appended with the index after the latest one, the serialised
    block stored under its hash, the committee updated with the faulty
    leaders of the header, and, on a shard node with tree-based broadcast
    whose re-encoding succeeded, one frame handed to the broadcast layer:
    the fresh encoding of the block, not the received message. *)
Theorem accepted_block_is_committed (E : Env) (message : bytes) (cur_offset : N)
    (from : Peer) (s s' : NodeState) :
  ProcessVCBlock E message cur_offset from s = (Some true, s') ->
  exists vcblock,
    GetNodeVCBlock E message cur_offset = Some vcblock /\
    s' = mkNodeState (m_currentEpochNum s)
           (UpdateDSCommiteeCompositionAfterVC E (m_selfKey s) vcblock (m_DSCommittee s))
           (m_blocklinkchain s ++ [vc_link E vcblock s]) (m_selfKey s)
           (<[GetBlockHash vcblock := VCBlockSerialize E vcblock]> (vcBlockDB s))
           (outbox s ++ vc_forwarded E vcblock).
Proof.
  intros Hacc.
  destruct (ProcessVCBlock_outcome E message cur_offset from s)
    as [Hres|(vcblock & Hdec & _ & [[_ Hres]|[_ Hres]])]; try congruence.
  exists vcblock. split; [assumption|congruence].
Qed.

Lemma accepted_block_is_committed_witness :
  exists vcblock,
    GetNodeVCBlock (Bench.env (Some (Bench.signed_block [Bench.B] [])) false true true 10 5)
      [] 2 = Some vcblock /\
    (ProcessVCBlock (Bench.env (Some (Bench.signed_block [Bench.B] [])) false true true 10 5)
       [] 2 Peer0 (Bench.node Bench.committee)).2
    = mkNodeState 700
        (UpdateDSCommiteeCompositionAfterVC
           (Bench.env (Some (Bench.signed_block [Bench.B] [])) false true true 10 5)
           9 vcblock Bench.committee)
        ([] ++ [vc_link (Bench.env (Some (Bench.signed_block [Bench.B] [])) false true true 10 5)
                  vcblock (Bench.node Bench.committee)])
        9
        (<[GetBlockHash vcblock :=
             VCBlockSerialize
               (Bench.env (Some (Bench.signed_block [Bench.B] [])) false true true 10 5)
               vcblock]> ∅)
        ([] ++ vc_forwarded
                 (Bench.env (Some (Bench.signed_block [Bench.B] [])) false true true 10 5)
                 vcblock).
Proof.
  apply (accepted_block_is_committed
           (Bench.env (Some (Bench.signed_block [Bench.B] [])) false true true 10 5)
           [] 2 Peer0 (Bench.node Bench.committee)).
  by vm_compute.
Defined.

(** X12: A block [ProcessVCBlock] accepts has the expected version, is not in a
    DS-block view-change state, is of the current epoch and fresh, carries
    the hash of its own header, was not stored before, names the hash of the
    current committee, and is co-signed: b2 has NumForConsensus(|b2|) set
    bits and the multi-signature check holds. *)
Theorem accepted_block_passed_every_gate (E : Env) (message : bytes)
    (cur_offset : N) (from : Peer) (s s' : NodeState) :
  ProcessVCBlock E message cur_offset from s = (Some true, s') ->
  exists vcblock,
    GetNodeVCBlock E message cur_offset = Some vcblock /\
    GetVersion (GetHeader vcblock) = VCBLOCK_VERSION E /\
    IsDSBlockVCState E (GetViewChangeState (GetHeader vcblock)) = false /\
    GetViewChangeEpochNo (GetHeader vcblock) = m_currentEpochNum s /\
    CheckWhetherBlockIsLatest E (GetViewChangeDSEpochNo (GetHeader vcblock))
      (GetViewChangeEpochNo (GetHeader vcblock)) = true /\
    GetBlockHash vcblock = GetMyHash E (GetHeader vcblock) /\
    vcBlockDB s !! GetBlockHash vcblock = None /\
    VerifyTimestamp E (GetTimestamp vcblock) (vc_timestamp_tolerance E) = true /\
    GetDSCommitteeHash E (m_DSCommittee s) = Some (GetCommitteeHash (GetHeader vcblock)) /\
    popcount (GetB2 vcblock) = NumForConsensus (N.of_nat (length (GetB2 vcblock))) /\
    multisig_check E vcblock (m_DSCommittee s) = true.
Proof.
  intros Hacc.
  assert (Hgate : forall g, ~ gate_fails E g (GetNodeVCBlock E message cur_offset) s).
  { intros g Hg. apply (ProcessVCBlock_gate_fails E g message cur_offset from) in Hg.
    congruence. }
  destruct (GetNodeVCBlock E message cur_offset) as [vcblock|] eqn:Hdec;
    [|by destruct (Hgate GDecode)].
  exists vcblock. split; [reflexivity|].
  pose proof (Hgate GVersion) as Hversion. pose proof (Hgate GStateTag) as Htag.
  pose proof (Hgate GEpoch) as Hepoch. pose proof (Hgate GFreshness) as Hfresh.
  pose proof (Hgate GSelfHash) as Hself. pose proof (Hgate GDuplicate) as Hdup.
  pose proof (Hgate GTimestamp) as Htime. pose proof (Hgate GCommitteeHash) as Hhash.
  pose proof (Hgate GCoSignature) as Hsig.
  cbn in Hversion, Htag, Hepoch, Hfresh, Hself, Hdup, Htime, Hhash, Hsig.
  apply dec_stable in Hversion, Hepoch, Hself, Hhash, Hsig.
  apply not_true_is_false in Htag. apply not_false_is_true in Hfresh, Htime.
  rewrite <- Hself. rewrite <- eq_None_not_Some in Hdup.
  rewrite VerifyVCBlockCoSignature_eq in Hsig. injection Hsig as Hsig.
  apply andb_true_iff in Hsig as [Hsig Hmulti].
  apply andb_true_iff in Hsig as [_ Hcount].
  apply bool_decide_eq_true in Hcount.
  by repeat split.
Qed.

Lemma accepted_block_passed_every_gate_witness :
  exists vcblock,
    GetNodeVCBlock (Bench.env (Some (Bench.signed_block [Bench.B] [])) false true true 10 5)
      [] 2 = Some vcblock /\
    popcount (GetB2 vcblock) = NumForConsensus (N.of_nat (length (GetB2 vcblock))).
Proof.
  destruct (accepted_block_passed_every_gate
              (Bench.env (Some (Bench.signed_block [Bench.B] [])) false true true 10 5)
              [] 2 Peer0 (Bench.node Bench.committee)
              (ProcessVCBlock
                 (Bench.env (Some (Bench.signed_block [Bench.B] [])) false true true 10 5)
                 [] 2 Peer0 (Bench.node Bench.committee)).2)
    as (vcblock & Hdec & H); [by vm_compute|].
  exists vcblock. split; [exact Hdec|]. apply H.
Defined.

(** X13: A block that was accepted is turned away when it is delivered again,
    from whichever peer and whatever the clock, the flags and the other
    collaborators have become, as long as the message decodes and hashes as
    before: the second [ProcessVCBlock] returns [false] and changes
    nothing. *)
Theorem replayed_block_is_rejected (E E' : Env) (message : bytes) (cur_offset : N)
    (from from' : Peer) (s s' : NodeState) :
  GetNodeVCBlock E' message cur_offset = GetNodeVCBlock E message cur_offset ->
  (forall h, GetMyHash E' h = GetMyHash E h) ->
  ProcessVCBlock E message cur_offset from s = (Some true, s') ->
  ProcessVCBlock E' message cur_offset from' s' = (Some false, s').
Proof.
  intros Hsame Hhash Hacc.
  destruct (ProcessVCBlock_outcome E message cur_offset from s)
    as [Hres|(vcblock & Hdec & Hpass & [[_ Hres]|[_ Hres]])]; try congruence.
  rewrite Hres in Hacc. injection Hacc as <-.
  apply (ProcessVCBlock_gate_fails E' GDuplicate). rewrite Hsame, Hdec. cbn.
  assert (Hself := Hpass GSelfHash ltac:(done)). cbn in Hself.
  apply dec_stable in Hself. rewrite Hhash, Hself, lookup_insert_eq. by eexists.
Qed.

Lemma replayed_block_is_rejected_witness :
  (ProcessVCBlock (Bench.env (Some (Bench.signed_block [Bench.B] [])) true false false 3 7)
     [] 2 (mkPeer 1 1)
     (ProcessVCBlock (Bench.env (Some (Bench.signed_block [Bench.B] [])) false true true 10 5)
        [] 2 Peer0 (Bench.node Bench.committee)).2).1
  = Some false.
Proof.
  rewrite (replayed_block_is_rejected
             (Bench.env (Some (Bench.signed_block [Bench.B] [])) false true true 10 5)
             (Bench.env (Some (Bench.signed_block [Bench.B] [])) true false false 3 7)
             [] 2 Peer0 (mkPeer 1 1) (Bench.node Bench.committee)
             (ProcessVCBlock
                (Bench.env (Some (Bench.signed_block [Bench.B] [])) false true true 10 5)
                [] 2 Peer0 (Bench.node Bench.committee)).2).
  - reflexivity.
  - reflexivity.
  - reflexivity.
  - by vm_compute.
Defined.

(** X14: Whatever [ProcessVCBlock] returns, a block that was in the store is
    still there with the same bytes: the write happens only for a hash the
    duplicate check found absent. *)
Theorem stored_blocks_are_never_overwritten (E : Env) (message : bytes)
    (cur_offset : N) (from : Peer) (s : NodeState) (h : BlockHash) (body : bytes) :
  vcBlockDB s !! h = Some body ->
  vcBlockDB (ProcessVCBlock E message cur_offset from s).2 !! h = Some body.
Proof.
  intros Hin.
  destruct (ProcessVCBlock_outcome E message cur_offset from s)
    as [->|(vcblock & _ & Hpass & [[_ ->]|[_ ->]])]; cbn [snd vcBlockDB]; try done.
  assert (Hself := Hpass GSelfHash ltac:(done)).
  assert (Hdup := Hpass GDuplicate ltac:(done)). cbn in Hself, Hdup.
  apply dec_stable in Hself. rewrite Hself in Hdup.
  rewrite lookup_insert_ne; [done|].
  intros Heq. subst h. apply Hdup. by eexists.
Qed.

Lemma stored_blocks_are_never_overwritten_witness :
  vcBlockDB
    (ProcessVCBlock (Bench.env (Some (Bench.signed_block [Bench.B] [])) false true true 10 5)
       [] 2 Peer0
       (mkNodeState 700 Bench.committee [] 9 (<[7 := [Byte.x07]]> ∅) [])).2 !! 7
  = Some [Byte.x07].
Proof.
  apply (stored_blocks_are_never_overwritten
           (Bench.env (Some (Bench.signed_block [Bench.B] [])) false true true 10 5)
           [] 2 Peer0 (mkNodeState 700 Bench.committee [] 9 (<[7 := [Byte.x07]]> ∅) [])).
  reflexivity.
Defined.

(** X15: Whatever [ProcessVCBlock] returns, the block-link chain is the old
    chain with at most one link appended, and that link is a VC link whose
    index is the latest index plus one (as a [uint64_t]). *)
Theorem chain_is_append_only (E : Env) (message : bytes) (cur_offset : N)
    (from : Peer) (s : NodeState) :
  exists tail,
    m_blocklinkchain (ProcessVCBlock E message cur_offset from s).2
    = m_blocklinkchain s ++ tail /\
    (length tail <= 1)%nat /\
    forall link, link ∈ tail ->
      bl_type link = BT_VC /\
      bl_index link = wrap64 (GetLatestIndex E (m_blocklinkchain s) + 1).
Proof.
  destruct (ProcessVCBlock_outcome E message cur_offset from s)
    as [->|(vcblock & _ & _ & [[_ ->]|[_ ->]])]; cbn [snd m_blocklinkchain].
  - exists []. rewrite app_nil_r. split; [reflexivity|]. split; [cbn; lia|].
    intros link Hin. by apply elem_of_nil in Hin.
  - exists [vc_link E vcblock s]. split; [reflexivity|]. split; [cbn; lia|].
    intros link Hin. by apply list_elem_of_singleton in Hin as ->.
  - exists [vc_link E vcblock s]. split; [reflexivity|]. split; [cbn; lia|].
    intros link Hin. by apply list_elem_of_singleton in Hin as ->.
Qed.

(** X16: When [ProcessVCBlock] returns [false], for whatever reason, the DS
    committee, the block store, the epoch number and what was handed to the
    broadcast layer are as before; only the link chain may be longer. *)
Theorem rejected_block_changes_no_committee (E : Env) (message : bytes)
    (cur_offset : N) (from : Peer) (s s' : NodeState) :
  ProcessVCBlock E message cur_offset from s = (Some false, s') ->
  m_DSCommittee s' = m_DSCommittee s /\
  vcBlockDB s' = vcBlockDB s /\
  outbox s' = outbox s /\
  m_currentEpochNum s' = m_currentEpochNum s.
Proof.
  intros Hrej.
  destruct (ProcessVCBlock_outcome E message cur_offset from s)
    as [Hres|(vcblock & _ & _ & [[_ Hres]|[_ Hres]])];
    rewrite Hres in Hrej; [| |discriminate]; by injection Hrej as <-.
Qed.

Lemma rejected_block_changes_no_committee_witness :
  m_DSCommittee
    (ProcessVCBlock (Bench.env (Some (Bench.signed_block [Bench.B] [])) false false true 10 5)
       [] 2 Peer0 (Bench.node Bench.committee)).2
  = Bench.committee.
Proof.
  apply (rejected_block_changes_no_committee
           (Bench.env (Some (Bench.signed_block [Bench.B] [])) false false true 10 5)
           [] 2 Peer0 (Bench.node Bench.committee)).
  by vm_compute.
Defined.

(** X17: In guard mode [ProcessVCBlock] never changes the DS committee, also
    when it accepts the block. *)
Theorem guard_mode_pins_committee_in_pipeline (E : Env) (message : bytes)
    (cur_offset : N) (from : Peer) (s : NodeState) :
  GUARD_MODE E = true ->
  m_DSCommittee (ProcessVCBlock E message cur_offset from s).2 = m_DSCommittee s.
Proof.
  intros Hguard.
  destruct (ProcessVCBlock_outcome E message cur_offset from s)
    as [->|(vcblock & _ & _ & [[_ ->]|[_ ->]])]; cbn [snd m_DSCommittee]; try done.
  unfold UpdateDSCommiteeCompositionAfterVC. by rewrite Hguard.
Qed.

Lemma guard_mode_pins_committee_in_pipeline_witness :
  (ProcessVCBlock (Bench.env (Some (Bench.signed_block [Bench.B] [])) true true true 10 5)
     [] 2 Peer0 (Bench.node Bench.committee)).1 = Some true /\
  m_DSCommittee
    (ProcessVCBlock (Bench.env (Some (Bench.signed_block [Bench.B] [])) true true true 10 5)
       [] 2 Peer0 (Bench.node Bench.committee)).2
  = Bench.committee.
Proof.
  split; [by vm_compute|].
  apply (guard_mode_pins_committee_in_pipeline
           (Bench.env (Some (Bench.signed_block [Bench.B] [])) true true true 10 5)
           [] 2 Peer0 (Bench.node Bench.committee)).
  reflexivity.
Defined.

(** X18: A lookup node, or a node without tree-based broadcast, hands nothing to
    the broadcast layer, whatever the block. *)
Theorem lookup_node_never_forwards (E : Env) (message : bytes) (cur_offset : N)
    (from : Peer) (s : NodeState) :
  LOOKUP_NODE_MODE E = true \/ BROADCAST_TREEBASED_CLUSTER_MODE E = false ->
  outbox (ProcessVCBlock E message cur_offset from s).2 = outbox s.
Proof.
  intros Hmode.
  destruct (ProcessVCBlock_outcome E message cur_offset from s)
    as [->|(vcblock & _ & _ & [[_ ->]|[_ ->]])]; cbn [snd outbox]; try done.
  unfold vc_forwarded.
  destruct Hmode as [-> | ->]; rewrite ?andb_false_r; cbn; by rewrite app_nil_r.
Qed.

Lemma lookup_node_never_forwards_witness :
  outbox
    (ProcessVCBlock
       (mkEnv 1 10 60 15 30 false true true 10 5 3 Byte.x04 Byte.x06 2
          (fun _ _ => Some (Bench.signed_block [] []))
          (fun m _ _ => Some m) (fun c => Some (N.of_nat (length c)))
          (fun _ => false) (fun _ _ => true) (fun _ _ => true)
          (fun h => GetPrevHash h + 1) (fun _ => Some []) (fun _ => [])
          (fun _ => []) (fun _ => []) (fun _ => Some 0) (fun _ _ _ => true)
          (fun _ => 0) (fun _ _ => true))
       [] 2 Peer0 (Bench.node Bench.committee)).2
  = [].
Proof.
  apply (lookup_node_never_forwards
           (mkEnv 1 10 60 15 30 false true true 10 5 3 Byte.x04 Byte.x06 2
              (fun _ _ => Some (Bench.signed_block [] []))
              (fun m _ _ => Some m) (fun c => Some (N.of_nat (length c)))
              (fun _ => false) (fun _ _ => true) (fun _ _ => true)
              (fun h => GetPrevHash h + 1) (fun _ => Some []) (fun _ => [])
              (fun _ => []) (fun _ => []) (fun _ => Some 0) (fun _ _ _ => true)
              (fun _ => 0) (fun _ _ => true))
           [] 2 Peer0 (Bench.node Bench.committee)).
  left. reflexivity.
Defined.

(** * The hex helpers *)

Lemma hex_pair_of_byte (b : Byte.byte) :
  hex_pair (hex_digit (Byte.to_N b / 16)) (hex_digit (Byte.to_N b mod 16)) = b.
Proof. destruct b; reflexivity. Qed.

Lemma hex_pairs_bytesToHexString (str : bytes) :
  hex_pairs (bytesToHexString str) = str.
Proof.
  induction str as [|b str IH]; [reflexivity|].
  cbn [bytesToHexString hex_pairs]. by rewrite hex_pair_of_byte, IH.
Qed.

Lemma length_bytesToHexString (str : bytes) :
  String.length (bytesToHexString str) = (2 * length str)%nat.
Proof.
  induction str as [|b str IH]; [reflexivity|].
  cbn [bytesToHexString String.length length]. rewrite IH. lia.
Qed.

Lemma bytesToHexString_no_prefix (str : bytes) :
  Ascii.eqb (char_at (bytesToHexString str) 0) "0"
  && Ascii.eqb (char_at (bytesToHexString str) 1) "x" = false.
Proof.
  destruct str as [|b str]; [reflexivity|].
  cbn [bytesToHexString char_at String.get]. destruct b; reflexivity.
Qed.

Lemma odd_double (n : nat) : Nat.odd (2 * n) = false.
Proof.
  rewrite <- Nat.negb_even, Nat.even_mul. reflexivity.
Qed.

Lemma hex_decode_round_trip (str : bytes) :
  hex_decode (bytesToHexString str) = str /\
  hex_decode (String "0" (String "x" (bytesToHexString str))) = str.
Proof.
  split.
  - unfold hex_decode.
    rewrite bytesToHexString_no_prefix, length_bytesToHexString, odd_double.
    cbn [string_drop]. apply hex_pairs_bytesToHexString.
  - unfold hex_decode. cbn [char_at String.get String.length].
    rewrite length_bytesToHexString.
    replace (S (S (2 * length str))) with (2 * S (length str))%nat by lia.
    rewrite odd_double. cbn [Ascii.eqb Bool.eqb andb string_drop].
    apply hex_pairs_bytesToHexString.
Qed.

Lemma length_hex_pairs_two_step (rest : string) :
  length (hex_pairs rest) = Nat.div2 (S (String.length rest)) /\
  forall c, length (hex_pairs (String c rest)) = Nat.div2 (S (S (String.length rest))).
Proof.
  induction rest as [|c' rest [IH1 IH2]].
  - split; [reflexivity|]. intros c. reflexivity.
  - split; [apply IH2|].
    intros c. cbn [hex_pairs length String.length]. rewrite IH1. reflexivity.
Qed.

Lemma length_string_drop (n : nat) :
  forall _s : string, String.length (string_drop n _s) = (String.length _s - n)%nat.
Proof.
  induction n as [|n IH]; intros [|c rest]; cbn [string_drop String.length];
    try reflexivity. apply IH.
Qed.

Lemma div2_odd_step (n : nat) :
  Nat.odd n = true -> S (Nat.div2 (S (n - 1))) = Nat.div2 (S n).
Proof.
  intros Hodd. apply Nat.odd_spec in Hodd as [k ->].
  replace (2 * k + 1 - 1)%nat with (2 * k)%nat by lia.
  replace (S (2 * k + 1)) with (2 * S k)%nat by lia.
  by rewrite Nat.div2_succ_double, Nat.div2_double.
Qed.

Lemma hex_decode_length (_s : string) :
  length (hex_decode _s)
  = ((String.length _s
      - (if Ascii.eqb (char_at _s 0) "0" && Ascii.eqb (char_at _s 1) "x"
         then 2 else 0)
      + 1) / 2)%nat.
Proof.
  rewrite <- Nat.div2_div, Nat.add_1_r. unfold hex_decode.
  set (s := if Ascii.eqb (char_at _s 0) "0" && Ascii.eqb (char_at _s 1) "x"
            then 2%nat else 0%nat).
  assert (Hs : (s <= String.length _s)%nat /\ Nat.odd s = false).
  { subst s. destruct _s as [|c0 [|c1 rest]]; cbn [char_at String.get String.length].
    - split; [cbn; lia|reflexivity].
    - rewrite andb_false_r. split; [lia|reflexivity].
    - destruct (_ && _); split; (lia || reflexivity). }
  destruct Hs as [Hle Hparity].
  destruct (Nat.odd (String.length _s)) eqn:Hodd.
  - cbn [length]. rewrite (proj1 (length_hex_pairs_two_step _)), length_string_drop.
    replace (String.length _s - S s)%nat with (String.length _s - s - 1)%nat by lia.
    apply div2_odd_step.
    replace (String.length _s) with (s + (String.length _s - s))%nat in Hodd by lia.
    rewrite Nat.odd_add, Hparity in Hodd. by destruct (Nat.odd (String.length _s - s)).
  - by rewrite (proj1 (length_hex_pairs_two_step _)), length_string_drop.
Qed.

Lemma fromHex_digit (c : ascii) (d : N) :
  fromHex c = Some d -> d < 16 /\ hex_digit d = to_lower c.
Proof.
  destruct c as [[] [] [] [] [] [] [] []]; vm_compute; intros [= <-]; by split.
Qed.

Lemma to_uint8_to_N (n : N) : n < 256 -> Byte.to_N (to_uint8 n) = n.
Proof.
  intros Hn. unfold to_uint8. rewrite N.mod_small by assumption.
  destruct (Byte.of_N n) as [b|] eqn:Hb.
  - by apply Byte.to_of_N.
  - apply Byte.of_N_None_iff in Hb. lia.
Qed.

Lemma hex_pair_digits (c1 c2 : ascii) (hi lo : N) :
  fromHex c1 = Some hi -> fromHex c2 = Some lo ->
  hex_digit (Byte.to_N (hex_pair c1 c2) / 16) = to_lower c1 /\
  hex_digit (Byte.to_N (hex_pair c1 c2) mod 16) = to_lower c2.
Proof.
  intros H1 H2. unfold hex_pair. rewrite H1, H2.
  apply fromHex_digit in H1 as [Hhi <-], H2 as [Hlo <-].
  rewrite to_uint8_to_N by lia.
  rewrite N.div_add_l, N.div_small, N.add_0_r by lia.
  rewrite N.add_comm, N.Div0.mod_add, N.mod_small by lia.
  by split.
Qed.

Lemma bytesToHexString_hex_pairs (rest : string) :
  (all_hex rest = true -> Nat.even (String.length rest) = true ->
   bytesToHexString (hex_pairs rest) = lower_case rest) /\
  (forall c, all_hex (String c rest) = true ->
             Nat.even (String.length (String c rest)) = true ->
             bytesToHexString (hex_pairs (String c rest)) = lower_case (String c rest)).
Proof.
  induction rest as [|c' rest [IH1 IH2]].
  - split; [reflexivity|]. intros c _ Heven. discriminate Heven.
  - split; [apply IH2|].
    intros c Hall Heven. cbn [all_hex] in Hall.
    destruct (fromHex c) as [hi|] eqn:Hc; [|discriminate].
    destruct (fromHex c') as [lo|] eqn:Hc'; [|discriminate].
    cbn [hex_pairs bytesToHexString lower_case].
    destruct (hex_pair_digits c c' hi lo Hc Hc') as [-> ->].
    rewrite IH1; [reflexivity|assumption|].
    cbn [String.length] in Heven. by rewrite Nat.even_succ_succ in Heven.
Qed.

Lemma hex_decode_is_normalised (_s : string) :
  all_hex _s = true ->
  bytesToHexString (hex_decode _s)
  = if Nat.odd (String.length _s) then String "0" (lower_case _s) else lower_case _s.
Proof.
  intros Hall. unfold hex_decode.
  assert (Hprefix : Ascii.eqb (char_at _s 0) "0" && Ascii.eqb (char_at _s 1) "x" = false).
  { destruct _s as [|c0 [|c1 rest]]; cbn [char_at String.get]; [reflexivity|..].
    - by rewrite andb_false_r.
    - cbn [all_hex] in Hall. destruct (fromHex c0); [|discriminate].
      destruct (Ascii.eqb c1 "x") eqn:Hx; [|by rewrite andb_false_r].
      apply Ascii.eqb_eq in Hx. subst c1. discriminate Hall. }
  rewrite Hprefix. destruct (Nat.odd (String.length _s)) eqn:Hodd.
  - destruct _s as [|c rest]; [discriminate|].
    cbn [char_at String.get string_drop all_hex] in *.
    destruct (fromHex c) as [d|] eqn:Hc; [|discriminate].
    cbn [bytesToHexString lower_case].
    apply fromHex_digit in Hc as [Hd <-].
    rewrite to_uint8_to_N by lia.
    rewrite N.div_small, N.mod_small by lia.
    rewrite (proj1 (bytesToHexString_hex_pairs rest)); [reflexivity|assumption|].
    cbn [String.length] in Hodd. by rewrite Nat.odd_succ in Hodd.
  - cbn [string_drop]. apply (proj1 (bytesToHexString_hex_pairs _s)); [assumption|].
    by rewrite <- Nat.negb_odd, Hodd.
Qed.

(** ** The loop with its 32-bit counter *)

Lemma string_drop_all (_s : string) : string_drop (String.length _s) _s = EmptyString.
Proof. induction _s as [|c rest IH]; [reflexivity|exact IH]. Qed.

Lemma string_drop_step (i : nat) :
  forall _s : string,
    (i < String.length _s)%nat ->
    string_drop i _s = String (char_at _s i) (string_drop (S i) _s).
Proof.
  induction i as [|i IH]; intros [|c rest] Hlt; cbn [String.length] in Hlt; try lia.
  - reflexivity.
  - cbn [string_drop]. rewrite (IH rest) by lia. reflexivity.
Qed.

Lemma uint32_max_eq : uint32_max = 4294967296.
Proof. reflexivity. Qed.

(** On a string of fewer than 2^32 characters, started at an even distance
    from the end, the loop ends within one turn per pair and has appended
    the bytes of the pairs. *)
Lemma hex_loop_pairs (_s : string) (n : nat) :
  forall (i : N) (ret : bytes) (fuel : nat),
    (N.to_nat i + 2 * n = String.length _s)%nat ->
    N.of_nat (String.length _s) < uint32_max ->
    (n < fuel)%nat ->
    hex_loop fuel _s i ret = Some (ret ++ hex_pairs (string_drop (N.to_nat i) _s)).
Proof.
  rewrite uint32_max_eq.
  induction n as [|n IH]; intros i ret fuel Hlen Hsize Hfuel;
    (destruct fuel as [|fuel]; [lia|]); cbn [hex_loop].
  - destruct (N.ltb_spec i (N.of_nat (String.length _s))); [lia|].
    replace (N.to_nat i) with (String.length _s) by lia.
    by rewrite string_drop_all, app_nil_r.
  - destruct (N.ltb_spec i (N.of_nat (String.length _s))); [|lia].
    unfold wrap32. rewrite uint32_max_eq, !N.mod_small by lia.
    rewrite IH by lia.
    rewrite (string_drop_step (N.to_nat i)) by lia.
    rewrite (string_drop_step (S (N.to_nat i))) by lia.
    cbn [hex_pairs]. rewrite <- app_assoc. cbn [app].
    replace (N.to_nat (i + 1)) with (S (N.to_nat i)) by lia.
    replace (N.to_nat (i + 2)) with (S (S (N.to_nat i))) by lia.
    reflexivity.
Qed.

(** Below 2^32 characters [hexStringToBytes] returns, within one turn per
    character, the bytes of [hex_decode]. *)
Lemma hexStringToBytes_decode (fuel : nat) (_s : string) :
  N.of_nat (String.length _s) < uint32_max ->
  (String.length _s < fuel)%nat ->
  hexStringToBytes fuel _s = Some (hex_decode _s).
Proof.
  intros Hsize Hfuel. unfold hexStringToBytes, hex_decode.
  assert (Hs : ((if Ascii.eqb (char_at _s 0) "0" && Ascii.eqb (char_at _s 1) "x"
                 then 2 else 0) <= String.length _s)%nat).
  { destruct _s as [|c0 [|c1 rest]]; cbn [char_at String.get String.length].
    - cbn. lia.
    - rewrite andb_false_r. lia.
    - destruct (_ && _); lia. }
  destruct (Ascii.eqb (char_at _s 0) "0" && Ascii.eqb (char_at _s 1) "x");
    destruct (Nat.odd (String.length _s)) eqn:Hodd.
  - apply Nat.odd_spec in Hodd as [k Hk].
    rewrite (hex_loop_pairs _s (k - 1)); [reflexivity|..]; try assumption.
    + rewrite Hk in *. change (N.to_nat (wrap32 (2 + 1))) with 3%nat. lia.
    + lia.
  - rewrite <- Nat.negb_even in Hodd. apply negb_false_iff, Nat.even_spec in Hodd as [k Hk].
    rewrite (hex_loop_pairs _s (k - 1)); [reflexivity|..]; try assumption.
    + rewrite Hk in *. change (N.to_nat 2) with 2%nat. lia.
    + lia.
  - apply Nat.odd_spec in Hodd as [k Hk].
    rewrite (hex_loop_pairs _s k); [reflexivity|..]; try assumption.
    + rewrite Hk. change (N.to_nat (wrap32 (0 + 1))) with 1%nat. lia.
    + lia.
  - rewrite <- Nat.negb_even in Hodd. apply negb_false_iff, Nat.even_spec in Hodd as [k Hk].
    rewrite (hex_loop_pairs _s k); [reflexivity|..]; try assumption.
    + rewrite Hk. change (N.to_nat 0) with 0%nat. lia.
    + lia.
Qed.

(** X19: on byte sequences whose hex string has fewer than 2^32 characters,
    where the [unsigned] loop counter cannot wrap, [hexStringToBytes] ends
    (within one turn per character) and undoes [bytesToHexString], with or
    without a "0x" in front of the digits. *)
Theorem hex_round_trip (str : bytes) (fuel : nat) :
  (2 * N.of_nat (length str) < uint32_max ->
   (2 * length str < fuel)%nat ->
   hexStringToBytes fuel (bytesToHexString str) = Some str) /\
  (2 * N.of_nat (length str) + 2 < uint32_max ->
   (2 * length str + 2 < fuel)%nat ->
   hexStringToBytes fuel (String "0" (String "x" (bytesToHexString str))) = Some str).
Proof.
  rewrite uint32_max_eq. split; intros Hsize Hfuel.
  - rewrite hexStringToBytes_decode.
    + by rewrite (proj1 (hex_decode_round_trip str)).
    + rewrite uint32_max_eq, length_bytesToHexString. lia.
    + rewrite length_bytesToHexString. lia.
  - rewrite hexStringToBytes_decode.
    + by rewrite (proj2 (hex_decode_round_trip str)).
    + cbn [String.length]. rewrite uint32_max_eq, length_bytesToHexString. lia.
    + cbn [String.length]. rewrite length_bytesToHexString. lia.
Qed.

Lemma hex_round_trip_witness :
  hexStringToBytes 9 (bytesToHexString [Byte.x00; Byte.x0f; Byte.xa5; Byte.xff])
  = Some [Byte.x00; Byte.x0f; Byte.xa5; Byte.xff].
Proof.
  apply (proj1 (hex_round_trip [Byte.x00; Byte.x0f; Byte.xa5; Byte.xff] 9)).
  - reflexivity.
  - cbn. lia.
Defined.

Lemma char_at_string_drop (i : nat) :
  forall (_s : string) (j : nat),
    char_at (string_drop i _s) j = char_at _s (i + j).
Proof.
  induction i as [|i IH]; intros [|c rest] j; cbn [string_drop]; try reflexivity.
  rewrite IH. reflexivity.
Qed.

Lemma hex_pairs_lookup_two_step (rest : string) :
  (forall k, (2 * k < String.length rest)%nat ->
     hex_pairs rest !! k
     = Some (hex_pair (char_at rest (2 * k)) (char_at rest (2 * k + 1)))) /\
  (forall c k, (2 * k < String.length (String c rest))%nat ->
     hex_pairs (String c rest) !! k
     = Some (hex_pair (char_at (String c rest) (2 * k))
                      (char_at (String c rest) (2 * k + 1)))).
Proof.
  induction rest as [|c' rest [IH1 IH2]].
  - split; [intros k Hk; cbn in Hk; lia|].
    intros c [|k] Hk; [reflexivity|cbn in Hk; lia].
  - split; [apply IH2|].
    intros c [|k] Hk; [reflexivity|].
    cbn [hex_pairs lookup list_lookup]. cbn [String.length] in Hk.
    rewrite IH1 by lia.
    replace (2 * S k)%nat with (S (S (2 * k))) by lia.
    reflexivity.
Qed.

(** X20: on a string of fewer than 2^32 characters [hexStringToBytes] ends
    (within one turn per character) and returns exactly the
    [(_s.size() - s + 1) / 2] bytes it reserves, [s] being 2 behind a "0x"
    and 0 otherwise.  Of a string of odd length the first byte is the value
    of the single leading digit; every other byte is that of one pair of
    characters, in order; a digit that [fromHex] refuses makes its byte 0
    and stops nothing. *)
Theorem hexStringToBytes_length (fuel : nat) (_s : string) :
  N.of_nat (String.length _s) < uint32_max ->
  (String.length _s < fuel)%nat ->
  exists ret,
    hexStringToBytes fuel _s = Some ret /\
    length ret
    = ((String.length _s
        - (if Ascii.eqb (char_at _s 0) "0" && Ascii.eqb (char_at _s 1) "x"
           then 2 else 0)
        + 1) / 2)%nat /\
    (Nat.odd (String.length _s) = true ->
     ret !! 0%nat
     = Some (match fromHex (char_at _s
                      (if Ascii.eqb (char_at _s 0) "0" && Ascii.eqb (char_at _s 1) "x"
                       then 2 else 0)) with
             | Some d => to_uint8 d
             | None => Byte.x00
             end)) /\
    (forall k : nat,
       let i := ((if Ascii.eqb (char_at _s 0) "0" && Ascii.eqb (char_at _s 1) "x"
                  then 2 else 0)
                 + (if Nat.odd (String.length _s) then 1 else 0) + 2 * k)%nat in
       (i < String.length _s)%nat ->
       ret !! ((if Nat.odd (String.length _s) then 1 else 0) + k)%nat
       = Some (hex_pair (char_at _s i) (char_at _s (i + 1)))) /\
    (forall c1 c2, fromHex c1 = None \/ fromHex c2 = None -> hex_pair c1 c2 = Byte.x00).
Proof.
  intros Hsize Hfuel. exists (hex_decode _s).
  split; [by apply hexStringToBytes_decode|].
  split; [apply hex_decode_length|].
  unfold hex_decode.
  set (s := if Ascii.eqb (char_at _s 0) "0" && Ascii.eqb (char_at _s 1) "x"
            then 2%nat else 0%nat).
  destruct (Nat.odd (String.length _s)) eqn:Hodd.
  - split; [intros _; reflexivity|]. split.
    + intros k. cbv zeta. intros Hi. cbn [lookup list_lookup Nat.add].
      rewrite (proj1 (hex_pairs_lookup_two_step _)), !char_at_string_drop
        by (rewrite length_string_drop; lia).
      do 3 f_equal; lia.
    + intros c1 c2 [H|H]; unfold hex_pair; rewrite H; [reflexivity|].
      by destruct (fromHex c1).
  - split; [discriminate|]. split.
    + intros k. cbv zeta. intros Hi. cbn [Nat.add].
      rewrite (proj1 (hex_pairs_lookup_two_step _)), !char_at_string_drop
        by (rewrite length_string_drop; lia).
      do 3 f_equal; lia.
    + intros c1 c2 [H|H]; unfold hex_pair; rewrite H; [reflexivity|].
      by destruct (fromHex c1).
Qed.

Lemma hexStringToBytes_length_witness :
  hexStringToBytes 10 "0xBAzF00D" = Some [Byte.x0b; Byte.x00; Byte.xf0; Byte.x0d] /\
  exists ret,
    hexStringToBytes 10 "0xBAzF00D" = Some ret /\ length ret = 4%nat.
Proof.
  split; [reflexivity|].
  destruct (hexStringToBytes_length 10 "0xBAzF00D" eq_refl ltac:(cbn; lia))
    as (ret & Hret & Hlen & _).
  exists ret. split; [exact Hret|exact Hlen].
Defined.

(** X21: for a string of hex digits of fewer than 2^32 characters,
    [hexStringToBytes] ends and converting its bytes back gives the string
    in lower case, behind a "0" when its length is odd. *)
Theorem hex_string_is_normalised (fuel : nat) (_s : string) :
  all_hex _s = true ->
  N.of_nat (String.length _s) < uint32_max ->
  (String.length _s < fuel)%nat ->
  exists ret,
    hexStringToBytes fuel _s = Some ret /\
    bytesToHexString ret
    = if Nat.odd (String.length _s) then String "0" (lower_case _s) else lower_case _s.
Proof.
  intros Hall Hsize Hfuel. exists (hex_decode _s).
  split; [by apply hexStringToBytes_decode|by apply hex_decode_is_normalised].
Qed.

Lemma hex_string_is_normalised_witness :
  exists ret,
    hexStringToBytes 8 "BADF00d" = Some ret /\
    bytesToHexString ret = "0badf00d"%string.
Proof.
  apply (hex_string_is_normalised 8 "BADF00d").
  - reflexivity.
  - reflexivity.
  - cbn. lia.
Defined.
